(** * Banana Milkshake: generation orchestration and edit history

    A shallow embedding of [src/services/geminiService.ts] (error
    classifier, retry wrapper, data-URL check of [editAd], batch fan-out)
    and of the handlers of [src/App.tsx] that drive regeneration and the
    per-slot edit history, followed by the properties proved about them.

    Conventions.
    - A JavaScript string is the list of its UTF-16 code units ([N]).
    - A provider call is a state transformer over a provider world [P];
      what the call throws is a [thrown] value.
    - An [async] handler is split at its [await]: a [_start] part that runs
      inside the click, and a [_resume] part that runs when the awaited
      promise settles.  Values that the closure captured at the click are
      carried from the first part to the second.
    - [console] output is diagnostic only and is not part of the state. *)

From Stdlib Require Import List NArith Arith Bool Lia String Ascii DecimalString DecimalNat.
Import ListNotations.

Set Implicit Arguments.
Set Warnings "-register-all".

(** ** JavaScript strings *)

Module JsString.

Local Open Scope N_scope.

Definition jsstring := list N.

(** The code units of an ASCII literal. *)
Definition cu (s : string) : jsstring :=
  map N_of_ascii (list_ascii_of_string s).

(** Same, with every apostrophe of the literal standing for a double
    quote (code unit 34). *)
Definition cuq (s : string) : jsstring :=
  map (fun c => if N.eqb c 39 then 34%N else c) (cu s).

Fixpoint eqb (a b : jsstring) : bool :=
  match a, b with
  | [], [] => true
  | x :: a', y :: b' => N.eqb x y && eqb a' b'
  | _, _ => false
  end.

(** [s.startsWith(p)] *)
Fixpoint startsWith (p s : jsstring) : bool :=
  match p, s with
  | [], _ => true
  | x :: p', y :: s' => N.eqb x y && startsWith p' s'
  | _ :: _, [] => false
  end.

(** [s.includes(needle)] *)
Fixpoint includes (needle s : jsstring) : bool :=
  startsWith needle s ||
  match s with
  | [] => false
  | _ :: s' => includes needle s'
  end.

(** [toLowerCase] on the code units below 256: A-Z and the Latin-1
    capitals.  No code unit outside this range lowercases to an ASCII
    letter other than [i] and [k], so a search for an ASCII word made of
    other letters in the lowered string is unaffected by the rest of the
    Unicode tables. *)
Definition lower (c : N) : N :=
  if (65 <=? c) && (c <=? 90) then c + 32
  else if (192 <=? c) && (c <=? 222) && negb (c =? 215) then c + 32
  else c.

Definition toLowerCase (s : jsstring) : jsstring := map lower s.

(** ECMAScript LineTerminator. *)
Definition isLineTerminator (c : N) : bool :=
  (c =? 10) || (c =? 13) || (c =? 8232) || (c =? 8233).

(** ECMAScript WhiteSpace or LineTerminator: what [trim] strips. *)
Definition isTrimmable (c : N) : bool :=
  isLineTerminator c ||
  (c =? 9) || (c =? 11) || (c =? 12) || (c =? 32) || (c =? 160) ||
  (c =? 5760) || ((8192 <=? c) && (c <=? 8202)) ||
  (c =? 8239) || (c =? 8287) || (c =? 12288) || (c =? 65279).

Fixpoint trimStart (s : jsstring) : jsstring :=
  match s with
  | c :: s' => if isTrimmable c then trimStart s' else s
  | [] => []
  end.

Definition trim (s : jsstring) : jsstring :=
  rev (trimStart (rev (trimStart s))).

(** Truthiness of a string: non-empty. *)
Definition nonEmpty (s : jsstring) : bool :=
  match s with [] => false | _ :: _ => true end.

(** [String(n)] for a non-negative integer. *)
Definition ofNat (n : nat) : jsstring :=
  cu (NilEmpty.string_of_uint (Nat.to_uint n)).

End JsString.
Import JsString.

(** ** [JSON.parse] *)

Module Json.

Local Open Scope N_scope.

Inductive json :=
| JNull
| JBool (b : bool)
| JNumber (lexeme : jsstring)
| JString (s : jsstring)
| JArray (items : list json)
| JObject (fields : list (jsstring * json)).

Inductive token :=
| TLBrace | TRBrace | TLBracket | TRBracket | TColon | TComma
| TString (s : jsstring)
| TNumber (lexeme : jsstring)
| TTrue | TFalse | TNull.

(** *** Lexer.  One code unit at a time; accumulators are reversed. *)

Inductive lex_mode :=
| LIdle
| LString (acc : jsstring)
| LEscape (acc : jsstring)
| LUnicode (acc : jsstring) (digits : list N)
| LWord (acc : jsstring)
| LNumber (acc : jsstring).

Definition isJsonSpace (c : N) : bool :=
  (c =? 32) || (c =? 9) || (c =? 10) || (c =? 13).

Definition isDigit (c : N) : bool := (48 <=? c) && (c <=? 57).

Definition isNumberChar (c : N) : bool :=
  isDigit c || (c =? 45) || (c =? 43) || (c =? 46) || (c =? 101) || (c =? 69).

Definition isWordChar (c : N) : bool := (97 <=? c) && (c <=? 122).

Definition hexValue (c : N) : option N :=
  if isDigit c then Some (c - 48)
  else if (97 <=? c) && (c <=? 102) then Some (c - 87)
  else if (65 <=? c) && (c <=? 70) then Some (c - 55)
  else None.

(** The character after a backslash, [u] apart. *)
Definition simpleEscape (c : N) : option N :=
  if c =? 34 then Some 34
  else if c =? 92 then Some 92
  else if c =? 47 then Some 47
  else if c =? 98 then Some 8
  else if c =? 102 then Some 12
  else if c =? 110 then Some 10
  else if c =? 114 then Some 13
  else if c =? 116 then Some 9
  else None.

Definition wordToken (w : jsstring) : option token :=
  if eqb w (cu "true") then Some TTrue
  else if eqb w (cu "false") then Some TFalse
  else if eqb w (cu "null") then Some TNull
  else None.

(** JSON number grammar: an optional minus; then a single zero or a
    non-zero digit followed by digits; then optionally a dot and one or
    more digits; then optionally e or E, an optional sign and one or more
    digits. *)
Fixpoint skipDigits (s : jsstring) : jsstring :=
  match s with
  | c :: s' => if isDigit c then skipDigits s' else s
  | [] => []
  end.

Definition digits1 (s : jsstring) : option jsstring :=
  match s with
  | c :: s' => if isDigit c then Some (skipDigits s') else None
  | [] => None
  end.

Definition exponentOk (s : jsstring) : bool :=
  match s with
  | [] => true
  | c :: s' =>
      if (c =? 101) || (c =? 69) then
        let s'' := match s' with
                   | d :: t => if (d =? 43) || (d =? 45) then t else s'
                   | [] => s'
                   end in
        match digits1 s'' with Some [] => true | _ => false end
      else false
  end.

Definition fractionOk (s : jsstring) : bool :=
  match s with
  | c :: s' =>
      if c =? 46 then
        match digits1 s' with Some r => exponentOk r | None => false end
      else exponentOk s
  | [] => true
  end.

Definition numberOk (s : jsstring) : bool :=
  let s1 := match s with
            | c :: s' => if c =? 45 then s' else s
            | [] => s
            end in
  match s1 with
  | c :: s' =>
      if c =? 48 then fractionOk s'
      else if isDigit c then fractionOk (skipDigits s')
      else false
  | [] => false
  end.

Definition numberToken (w : jsstring) : option token :=
  if numberOk w then Some (TNumber w) else None.

(** A code unit met between tokens. *)
Definition idleStep (c : N) : option (list token * lex_mode) :=
  if isJsonSpace c then Some ([], LIdle)
  else if c =? 123 then Some ([TLBrace], LIdle)
  else if c =? 125 then Some ([TRBrace], LIdle)
  else if c =? 91 then Some ([TLBracket], LIdle)
  else if c =? 93 then Some ([TRBracket], LIdle)
  else if c =? 58 then Some ([TColon], LIdle)
  else if c =? 44 then Some ([TComma], LIdle)
  else if c =? 34 then Some ([], LString [])
  else if isNumberChar c then Some ([], LNumber [c])
  else if isWordChar c then Some ([], LWord [c])
  else None.

Definition emitThen (t : option token) (c : N) : option (list token * lex_mode) :=
  match t, idleStep c with
  | Some t, Some (ts, m) => Some (t :: ts, m)
  | _, _ => None
  end.

Definition lexStep (m : lex_mode) (c : N) : option (list token * lex_mode) :=
  match m with
  | LIdle => idleStep c
  | LString acc =>
      if c =? 34 then Some ([TString (rev acc)], LIdle)
      else if c =? 92 then Some ([], LEscape acc)
      else if c <? 32 then None
      else Some ([], LString (c :: acc))
  | LEscape acc =>
      match simpleEscape c with
      | Some d => Some ([], LString (d :: acc))
      | None => if c =? 117 then Some ([], LUnicode acc []) else None
      end
  | LUnicode acc ds =>
      match hexValue c with
      | None => None
      | Some d =>
          match ds with
          | [d2; d1; d0] =>
              Some ([], LString (((d0 * 16 + d1) * 16 + d2) * 16 + d :: acc))
          | _ => Some ([], LUnicode acc (d :: ds))
          end
      end
  | LWord acc =>
      if isWordChar c then Some ([], LWord (c :: acc))
      else emitThen (wordToken (rev acc)) c
  | LNumber acc =>
      if isNumberChar c then Some ([], LNumber (c :: acc))
      else emitThen (numberToken (rev acc)) c
  end.

Definition lexEnd (m : lex_mode) : option (list token) :=
  match m with
  | LIdle => Some []
  | LWord acc => option_map (fun t => [t]) (wordToken (rev acc))
  | LNumber acc => option_map (fun t => [t]) (numberToken (rev acc))
  | LString _ | LEscape _ | LUnicode _ _ => None
  end.

Fixpoint lex (m : lex_mode) (s : jsstring) : option (list token) :=
  match s with
  | [] => lexEnd m
  | c :: s' =>
      match lexStep m c with
      | None => None
      | Some (ts, m') => option_map (app ts) (lex m' s')
      end
  end.

(** *** Parser.  A pushdown automaton over the tokens. *)

Inductive frame :=
| FArray (done : list json)
| FObject (done : list (jsstring * json)) (key : option jsstring).

Inductive expect :=
| EValue (mayClose : bool)
| EKey (mayClose : bool)
| EColon
| EAfter
| EDone (v : json).

Definition deliver (v : json) (stack : list frame) : option (expect * list frame) :=
  match stack with
  | [] => Some (EDone v, [])
  | FArray done :: st => Some (EAfter, FArray (v :: done) :: st)
  | FObject done (Some k) :: st => Some (EAfter, FObject ((k, v) :: done) None :: st)
  | FObject _ None :: _ => None
  end.

Definition closeArray (stack : list frame) : option (expect * list frame) :=
  match stack with
  | FArray done :: st => deliver (JArray (rev done)) st
  | _ => None
  end.

Definition closeObject (stack : list frame) : option (expect * list frame) :=
  match stack with
  | FObject done None :: st => deliver (JObject (rev done)) st
  | _ => None
  end.

Definition parseStep (e : expect) (stack : list frame) (t : token)
  : option (expect * list frame) :=
  match e with
  | EValue mayClose =>
      match t with
      | TNull => deliver JNull stack
      | TTrue => deliver (JBool true) stack
      | TFalse => deliver (JBool false) stack
      | TNumber n => deliver (JNumber n) stack
      | TString s => deliver (JString s) stack
      | TLBracket => Some (EValue true, FArray [] :: stack)
      | TLBrace => Some (EKey true, FObject [] None :: stack)
      | TRBracket => if mayClose then closeArray stack else None
      | _ => None
      end
  | EKey mayClose =>
      match t, stack with
      | TString k, FObject done None :: st => Some (EColon, FObject done (Some k) :: st)
      | TRBrace, _ => if mayClose then closeObject stack else None
      | _, _ => None
      end
  | EColon =>
      match t with
      | TColon => Some (EValue false, stack)
      | _ => None
      end
  | EAfter =>
      match t, stack with
      | TComma, FArray _ :: _ => Some (EValue false, stack)
      | TComma, FObject _ None :: _ => Some (EKey false, stack)
      | TRBracket, _ => closeArray stack
      | TRBrace, _ => closeObject stack
      | _, _ => None
      end
  | EDone _ => None
  end.

Fixpoint parseTokens (e : expect) (stack : list frame) (ts : list token)
  : option json :=
  match ts with
  | [] => match e with EDone v => Some v | _ => None end
  | t :: ts' =>
      match parseStep e stack t with
      | None => None
      | Some (e', stack') => parseTokens e' stack' ts'
      end
  end.

(** [JSON.parse(text)]; [None] is the [SyntaxError]. *)
Definition parse (text : jsstring) : option json :=
  match lex LIdle text with
  | None => None
  | Some ts => parseTokens (EValue false) [] ts
  end.

End Json.
Import Json.

(** ** The service: [src/services/geminiService.ts] *)

(** What a provider call or a callback may throw: an [Error] object with
    its message, or any other value. *)
Inductive thrown :=
| JsError (message : jsstring)
| NotAnError.

(** One invocation of a provider-level operation. *)
Inductive outcome (T : Type) :=
| Returned (v : T)
| Threw (e : thrown).
Arguments Returned {T} v.
Arguments Threw {T} e.

(** A settled promise of the service.  Every rejection the service creates
    is [new Error(message)], so the rejection carries the message. *)
Inductive result (T : Type) :=
| Resolved (v : T)
| Failed (message : jsstring).
Arguments Resolved {T} v.
Arguments Failed {T} message.

(** What depends on the JavaScript engine.  Two facts about a JSON number
    need its floating point: how [String(x)] prints it and whether it is
    zero; both are functions of the number's lexeme.  The third is the
    message of the [TypeError] for calling a method of [undefined]. *)
Record Engine := {
  numberToString : jsstring -> jsstring;
  numberIsZero : jsstring -> bool;
  typeErrorMessage : jsstring
}.

Definition MAX_RETRIES : nat := 3.

Module Classifier.

Local Open Scope N_scope.

(** A value read out of the parsed payload. *)
Inductive jsval :=
| Undefined
| Val (j : json).

(** Last binding of [key], as [JSON.parse] keeps the last duplicate. *)
Fixpoint lookupLast (key : jsstring) (fields : list (jsstring * json))
  : option json :=
  match fields with
  | [] => None
  | (k, v) :: rest =>
      match lookupLast key rest with
      | Some v' => Some v'
      | None => if eqb k key then Some v else None
      end
  end.

(** [v.key] for [key] among error, message, status, none of which is
    a property of the built-in prototypes.  [None] is the [TypeError] of
    reading a property of [null] or [undefined]. *)
Definition prop (v : jsval) (key : jsstring) : option jsval :=
  match v with
  | Undefined => None
  | Val JNull => None
  | Val (JObject fields) =>
      match lookupLast key fields with
      | Some j => Some (Val j)
      | None => Some Undefined
      end
  | Val _ => Some Undefined
  end.

Section WithEngine.

Variable E : Engine.

Definition truthy (v : jsval) : bool :=
  match v with
  | Undefined => false
  | Val JNull => false
  | Val (JBool b) => b
  | Val (JNumber n) => negb (numberIsZero E n)
  | Val (JString s) => nonEmpty s
  | Val (JArray _) => true
  | Val (JObject _) => true
  end.

(** [String(v)], as a template literal applies it.  [None] is the
    [TypeError] of an object whose own [toString] property, coming from the
    payload, is not a function; [Array.prototype.join] passes it on. *)
Fixpoint toString (j : json) : option jsstring :=
  match j with
  | JNull => Some (cu "null")
  | JBool true => Some (cu "true")
  | JBool false => Some (cu "false")
  | JNumber n => Some (numberToString E n)
  | JString s => Some s
  | JArray items =>
      (fix join (l : list json) : option jsstring :=
         match l with
         | [] => Some []
         | x :: rest =>
             match (match x with JNull => Some [] | _ => toString x end) with
             | None => None
             | Some sx =>
                 match rest with
                 | [] => Some sx
                 | _ :: _ =>
                     match join rest with
                     | Some sr => Some (sx ++ 44 :: sr)
                     | None => None
                     end
                 end
             end
         end) items
  | JObject fields =>
      match lookupLast (cu "toString") fields with
      | Some _ => None
      | None => Some (cu "[object Object]")
      end
  end.

Definition toStringVal (v : jsval) : option jsstring :=
  match v with
  | Undefined => Some (cu "undefined")
  | Val j => toString j
  end.

(** [v === text] *)
Definition strictEqualsString (v : jsval) (text : jsstring) : bool :=
  match v with
  | Val (JString s) => eqb s text
  | _ => false
  end.

Definition defaultMessage : jsstring :=
  cu "We have encountered problems in generating your assets. An unexpected error occurred. Please try again.".

Definition quotaMessage : jsstring :=
  cu "We have encountered problems in generating your assets. Error: API Quota Exceeded (out of tokens). For details, visit https://ai.google.dev/gemini-api/docs/rate-limits".

Definition policyMessage : jsstring :=
  cu "We have encountered problems in generating your assets. Error Code: SAFETY_VIOLATION. Message: Request blocked due to content policy.".

Definition providerMessage (errorCode keyMessage : jsstring) : jsstring :=
  cu "We have encountered problems in generating your assets. Error Code: "
  ++ errorCode ++ cu ". Message: " ++ keyMessage.

Definition transportMessage (rawMessage : jsstring) : jsstring :=
  cu "We have encountered problems in generating your assets: " ++ rawMessage.

(** The regular expression [/{.*}/s].  With the [s] flag the dot takes
    every code unit.  [dotStarRBrace] is the greedy star followed by the
    closing brace, with its backtracking; [matchBraces] tries the
    start positions from the left. *)
Fixpoint dotStarRBrace (s : jsstring) : option jsstring :=
  match s with
  | [] => None
  | c :: s' =>
      match dotStarRBrace s' with
      | Some m => Some (c :: m)
      | None => if c =? 125 then Some [c] else None
      end
  end.

Fixpoint matchBraces (s : jsstring) : option jsstring :=
  match s with
  | [] => None
  | c :: s' =>
      if c =? 123 then
        match dotStarRBrace s' with
        | Some m => Some (c :: m)
        | None => matchBraces s'
        end
      else matchBraces s'
  end.

(** The body of the [try] block once [JSON.parse] has returned.  [None]
    is an exception ([null.error], [toLowerCase] of a message that is not a
    string, or a status that cannot be turned into a string), which the
    [catch] swallows before [finalMessage] was assigned. *)
Definition classifyParsed (parsed : json) : option jsstring :=
  match prop (Val parsed) (cu "error") with
  | None => None
  | Some parsedError =>
      if truthy parsedError then
        match prop parsedError (cu "message") with
        | None => None
        | Some keyMessage =>
            if truthy keyMessage then
              match prop parsedError (cu "status") with
              | None => None
              | Some status =>
                  let errorCode :=
                    if truthy status then status
                    else Val (JString (cu "N/A")) in
                  if strictEqualsString errorCode (cu "RESOURCE_EXHAUSTED")
                  then Some quotaMessage
                  else
                    match keyMessage with
                    | Val (JString m) =>
                        if includes (cu "safety") (toLowerCase m)
                        then Some policyMessage
                        else
                          match toStringVal errorCode with
                          | Some code => Some (providerMessage code m)
                          | None => None
                          end
                    | _ => None
                    end
              end
            else Some defaultMessage
        end
      else Some defaultMessage
  end.

(** [handleGeminiError(error, context)] always throws
    [new Error(finalMessage)]; the function returns [finalMessage]. *)
Definition handleGeminiError (error : thrown) (context : jsstring) : jsstring :=
  match error with
  | NotAnError => defaultMessage
  | JsError rawMessage =>
      match matchBraces rawMessage with
      | Some jsonMatch =>
          match parse jsonMatch with
          | Some parsed =>
              match classifyParsed parsed with
              | Some finalMessage => finalMessage
              | None => defaultMessage
              end
          | None => defaultMessage
          end
      | None => transportMessage rawMessage
      end
  end.

End WithEngine.

End Classifier.
Import Classifier.

(** *** Bounded retry *)

Section Retry.

Variable E : Engine.
Variables P T : Type.

(** [for (let i = 0; i < MAX_RETRIES; i++)]: [remaining] iterations are
    left and the loop counter is [i]. *)
Fixpoint retryLoop (remaining i : nat) (apiCall : P -> outcome T * P)
    (context : jsstring) (w : P) : result T * P :=
  match remaining with
  | 0 =>
      (Failed (cu "Operation failed for " ++ context ++ cu " after "
               ++ ofNat MAX_RETRIES ++ cu " attempts."), w)
  | S remaining' =>
      match apiCall w with
      | (Returned v, w') => (Resolved v, w')
      | (Threw error, w') =>
          if i =? MAX_RETRIES - 1
          then (Failed (handleGeminiError E error context), w')
          else retryLoop remaining' (S i) apiCall context w'
      end
  end.

Definition withRetries (apiCall : P -> outcome T * P) (context : jsstring)
    (w : P) : result T * P :=
  retryLoop MAX_RETRIES 0 apiCall context w.

End Retry.

(** *** Requests and responses *)

Record ImageData := { data : jsstring; mimeType : jsstring }.

Record AdCopy := { headline : jsstring; description : jsstring; cta : jsstring }.

Inductive Modality := IMAGE.

Inductive Part :=
| TextPart (text : jsstring)
| InlinePart (inlineData : ImageData).

Record Request := {
  model : jsstring;
  contents : list Part;
  responseModalities : list Modality
}.

(** The response, with the optional fields the service reads through
    [?.]. *)
Record Blob := { blobData : option jsstring; blobMimeType : option jsstring }.
Record ResponsePart := { partInlineData : option Blob }.
Record Content := { parts : option (list ResponsePart) }.
Record Candidate := { content : option Content }.
Record Response := { candidates : option (list Candidate) }.

(** [response.candidates?.[0]?.content?.parts?.find(p => p.inlineData)],
    then its [inlineData]. *)
Definition firstInlineData (response : Response) : option Blob :=
  match candidates response with
  | Some (c :: _) =>
      match content c with
      | Some ct =>
          match parts ct with
          | Some ps =>
              match find (fun p => match partInlineData p with Some _ => true | None => false end) ps with
              | Some p => partInlineData p
              | None => None
              end
          | None => None
          end
      | None => None
      end
  | _ => None
  end.

Definition orUndefined (s : option jsstring) : jsstring :=
  match s with Some s => s | None => cu "undefined" end.

(** [`data:${mimeType};base64,${data}`] *)
Definition dataUrl (b : Blob) : jsstring :=
  cu "data:" ++ orUndefined (blobMimeType b) ++ cu ";base64," ++ orUndefined (blobData b).

Definition styleVariations : list jsstring :=
  [ cu "**Image-Centric Focus:** The Product/Lifestyle Photo is the undisputed hero. Create a clean, minimalist layout where the image dominates. Prioritize a full-bleed approach, seamlessly extending the photo (outpainting) to fill the entire canvas if it's a lifestyle shot. All other elements (text, logo) must be positioned with subtlety to support the image, not compete with it. The final feel should be premium and uncluttered.";
    cu "**Bold Typographic Focus:** Create a dynamic, modern, and asymmetrical layout where typography is a key artistic element. The design should be a balanced interplay between the Product/Lifestyle Photo (ASSET 1) and large, impactful text. Instead of just filling space, use color blocks from the brand palette intelligently as design accents or to create a clear separation and hierarchy between text and image areas. The result should feel energetic and deliberate, not random.";
    cu "**High-Fidelity Template Adaptation:** Your primary goal is to recreate the " ++ 34%N :: cu "Brand Style Guide/Ad Template" ++ 34%N :: cu " (ASSET 2) using the provided new assets.
    1.  Analyze the template's layout: the positioning, scale, and alignment of its core components (image areas, text area, logo placement).
    2.  **CRITICAL** Construct a new ad that mirrors this *structure and style*, but is replaced entirely with the new assets (ASSET 1 + ASSET 3 + user provided Ad Copy). REMOVE AND DO NOT INCLUDE any original text or ad copy, logo or images from the template (ASSET 2).
    3.  The final ad should still feel like it perfectly fits within the brand's established design system." ].

(** The regular expression [/^data:(image\/.+);base64,(.+)$/] of [editAd].
    Without the [s] flag the dot refuses line terminators.
    [plusThenBase64] is the first greedy [.+] followed by the rest of the
    pattern: the longest non-empty run that still leaves [;base64,] and a
    non-empty payload free of line terminators. *)
Definition noLineTerminator (s : jsstring) : bool :=
  forallb (fun c => negb (isLineTerminator c)) s.

Fixpoint plusThenBase64 (s : jsstring) : option (jsstring * jsstring) :=
  match s with
  | [] => None
  | c :: s' =>
      if isLineTerminator c then None
      else
        match plusThenBase64 s' with
        | Some (x, y) => Some (c :: x, y)
        | None =>
            if startsWith (cu ";base64,") s' then
              let y := skipn 8 s' in
              if nonEmpty y && noLineTerminator y then Some ([c], y) else None
            else None
        end
  end.

(** [baseImage.match(...)]: the two capture groups. *)
Definition matchDataUrl (baseImage : jsstring) : option (jsstring * jsstring) :=
  if startsWith (cu "data:image/") baseImage then
    match plusThenBase64 (skipn 11 baseImage) with
    | Some (x, y) => Some (cu "image/" ++ x, y)
    | None => None
    end
  else None.

(** [Promise.all] over promises that settle at the given times: it rejects
    with the rejection that happens first, and otherwise resolves with the
    values in the order of the promises. *)
Fixpoint earliestRejection (T : Type) (ps : list (nat * result T))
  : option (nat * jsstring) :=
  match ps with
  | [] => None
  | (t, r) :: rest =>
      match r, earliestRejection rest with
      | Failed m, Some (t', m') => if t' <? t then Some (t', m') else Some (t, m)
      | Failed m, None => Some (t, m)
      | Resolved _, later => later
      end
  end.

Fixpoint resolvedValues (T : Type) (ps : list (nat * result T)) : list T :=
  match ps with
  | [] => []
  | (_, Resolved v) :: rest => v :: resolvedValues rest
  | (_, Failed _) :: rest => resolvedValues rest
  end.

Definition Promise_all (T : Type) (ps : list (nat * result T)) : result (list T) :=
  match earliestRejection ps with
  | Some (_, m) => Failed m
  | None => Resolved (resolvedValues ps)
  end.

Section Service.

Variable E : Engine.

(** The provider: [ai.models.generateContent] as a transformer of the
    provider world [P]. *)
Variable P : Type.
Variable generateContent : Request -> P -> outcome Response * P.

(** The prompt templates (lines 116-127 and 277-345), whose prose is a
    payload for the provider only. *)
Variable editPromptText : jsstring -> jsstring.
Variable adPromptText : AdCopy -> jsstring -> jsstring -> jsstring.

Definition imageModel : jsstring := cu "gemini-3-pro-image-preview".

(** The callback handed to [withRetries] by [editAd] and
    [generateSingleAd]: one provider call, then the image part or a
    throw. *)
Definition imageCall (request : Request) (missing : jsstring) (w : P)
  : outcome jsstring * P :=
  match generateContent request w with
  | (Returned response, w') =>
      match firstInlineData response with
      | Some blob => (Returned (dataUrl blob), w')
      | None => (Threw (JsError missing), w')
      end
  | (Threw e, w') => (Threw e, w')
  end.

Definition editAd (baseImage prompt : jsstring) (w : P) : result jsstring * P :=
  match matchDataUrl baseImage with
  | None => (Failed (cu "Invalid base image data URL format."), w)
  | Some (mimeType, data) =>
      let imagePart := InlinePart {| data := data; mimeType := mimeType |} in
      let request :=
        {| model := imageModel;
           contents := [imagePart; TextPart (editPromptText prompt)];
           responseModalities := [IMAGE] |} in
      withRetries E
        (imageCall request (cu "Model response did not contain a valid image part for the edit."))
        (cu "ad editing with prompt: " ++ 34%N :: prompt ++ [34%N])
        w
  end.

Definition generateSingleAd (productImage styleImage logoImage : ImageData)
    (adCopy : AdCopy) (creativeDirection aspectRatio : jsstring) (w : P)
  : result jsstring * P :=
  let request :=
    {| model := imageModel;
       contents :=
         [ TextPart (cu "**ASSET 1: " ++ 34%N :: cu "Product/Lifestyle Photo" ++ 34%N :: cu "**");
           InlinePart productImage;
           TextPart (10%N :: 10%N :: cu "**ASSET 2: " ++ 34%N :: cu "Brand Style Guide/Ad Template" ++ 34%N :: cu "**");
           InlinePart styleImage;
           TextPart (10%N :: 10%N :: cu "**ASSET 3: " ++ 34%N :: cu "Brand Logo" ++ 34%N :: cu "**");
           InlinePart logoImage;
           TextPart (adPromptText adCopy creativeDirection aspectRatio) ];
       responseModalities := [IMAGE] |} in
  withRetries E
    (imageCall request (cu "Model response did not contain a valid image part."))
    (cu "ad generation with style '" ++ creativeDirection ++ cu "'")
    w.

(** [generateAds]: one [generateSingleAd] per creative direction, all
    started before any is awaited.  The chain of direction [i] sees the
    provider as [worlds i] and settles at time [settles i].  The [catch]
    rethrows the rejection of [Promise.all] as it is. *)
Definition adPromises (productImage styleImage logoImage : ImageData)
    (adCopy : AdCopy) (aspectRatio : jsstring)
    (worlds : nat -> P) (settles : nat -> nat) : list (nat * result jsstring) :=
  map (fun iv : nat * jsstring =>
         let (i, variation) := iv in
         (settles i,
          fst (generateSingleAd productImage styleImage logoImage adCopy
                 variation aspectRatio (worlds i))))
      (combine (seq 0 (List.length styleVariations)) styleVariations).

Definition generateAds (productImage styleImage logoImage : ImageData)
    (adCopy : AdCopy) (aspectRatio : jsstring)
    (worlds : nat -> P) (settles : nat -> nat) : result (list jsstring) :=
  Promise_all
    (adPromises productImage styleImage logoImage adCopy aspectRatio worlds settles).

End Service.

(** ** The application: [src/App.tsx] *)

Module App.

(** An element read from [generatedAds] or from a history: a string, or
    [undefined] ([None]) when the position is a hole or out of range. *)
Definition slot := option jsstring.

(** [a[index]] *)
Definition arrayGet (a : list slot) (index : nat) : slot :=
  match nth_error a index with
  | Some s => s
  | None => None
  end.

(** [copy = [...a]; copy[index] = v].  Past the end JavaScript extends the
    array and leaves holes. *)
Fixpoint arraySet (a : list slot) (index : nat) (v : slot) : list slot :=
  match index, a with
  | 0, [] => [v]
  | 0, _ :: rest => v :: rest
  | S i, [] => None :: arraySet [] i v
  | S i, x :: rest => x :: arraySet rest i v
  end.

(** [h[h.length - 1]] *)
Definition lastOf (h : list slot) : slot := last h None.

Record EditSession := {
  index : nat;
  originalData : slot;
  history : list slot
}.

(** The [useState] cells the handlers read or write. *)
Record State := {
  imageForAd : option ImageData;
  styleImage : option ImageData;
  logoImage : option ImageData;
  aspectRatio : jsstring;
  adCopy : AdCopy;
  skipAdCopy : bool;
  generatedAds : list slot;
  isGeneratingAds : bool;
  regeneratingIndex : option nat;
  loadingMessage : jsstring;
  error : option jsstring;
  editingAd : option EditSession;
  editPrompt : jsstring;
  isEditing : bool
}.

Definition setGeneratedAds (v : list slot) (st : State) : State :=
  {| imageForAd := imageForAd st; styleImage := styleImage st;
     logoImage := logoImage st; aspectRatio := aspectRatio st;
     adCopy := adCopy st; skipAdCopy := skipAdCopy st;
     generatedAds := v;
     isGeneratingAds := isGeneratingAds st;
     regeneratingIndex := regeneratingIndex st;
     loadingMessage := loadingMessage st; error := error st;
     editingAd := editingAd st; editPrompt := editPrompt st;
     isEditing := isEditing st |}.

Definition setIsGeneratingAds (v : bool) (st : State) : State :=
  {| imageForAd := imageForAd st; styleImage := styleImage st;
     logoImage := logoImage st; aspectRatio := aspectRatio st;
     adCopy := adCopy st; skipAdCopy := skipAdCopy st;
     generatedAds := generatedAds st;
     isGeneratingAds := v;
     regeneratingIndex := regeneratingIndex st;
     loadingMessage := loadingMessage st; error := error st;
     editingAd := editingAd st; editPrompt := editPrompt st;
     isEditing := isEditing st |}.

Definition setRegeneratingIndex (v : option nat) (st : State) : State :=
  {| imageForAd := imageForAd st; styleImage := styleImage st;
     logoImage := logoImage st; aspectRatio := aspectRatio st;
     adCopy := adCopy st; skipAdCopy := skipAdCopy st;
     generatedAds := generatedAds st;
     isGeneratingAds := isGeneratingAds st;
     regeneratingIndex := v;
     loadingMessage := loadingMessage st; error := error st;
     editingAd := editingAd st; editPrompt := editPrompt st;
     isEditing := isEditing st |}.

Definition setLoadingMessage (v : jsstring) (st : State) : State :=
  {| imageForAd := imageForAd st; styleImage := styleImage st;
     logoImage := logoImage st; aspectRatio := aspectRatio st;
     adCopy := adCopy st; skipAdCopy := skipAdCopy st;
     generatedAds := generatedAds st;
     isGeneratingAds := isGeneratingAds st;
     regeneratingIndex := regeneratingIndex st;
     loadingMessage := v; error := error st;
     editingAd := editingAd st; editPrompt := editPrompt st;
     isEditing := isEditing st |}.

Definition setError (v : option jsstring) (st : State) : State :=
  {| imageForAd := imageForAd st; styleImage := styleImage st;
     logoImage := logoImage st; aspectRatio := aspectRatio st;
     adCopy := adCopy st; skipAdCopy := skipAdCopy st;
     generatedAds := generatedAds st;
     isGeneratingAds := isGeneratingAds st;
     regeneratingIndex := regeneratingIndex st;
     loadingMessage := loadingMessage st; error := v;
     editingAd := editingAd st; editPrompt := editPrompt st;
     isEditing := isEditing st |}.

Definition setEditingAd (v : option EditSession) (st : State) : State :=
  {| imageForAd := imageForAd st; styleImage := styleImage st;
     logoImage := logoImage st; aspectRatio := aspectRatio st;
     adCopy := adCopy st; skipAdCopy := skipAdCopy st;
     generatedAds := generatedAds st;
     isGeneratingAds := isGeneratingAds st;
     regeneratingIndex := regeneratingIndex st;
     loadingMessage := loadingMessage st; error := error st;
     editingAd := v; editPrompt := editPrompt st;
     isEditing := isEditing st |}.

Definition setEditPrompt (v : jsstring) (st : State) : State :=
  {| imageForAd := imageForAd st; styleImage := styleImage st;
     logoImage := logoImage st; aspectRatio := aspectRatio st;
     adCopy := adCopy st; skipAdCopy := skipAdCopy st;
     generatedAds := generatedAds st;
     isGeneratingAds := isGeneratingAds st;
     regeneratingIndex := regeneratingIndex st;
     loadingMessage := loadingMessage st; error := error st;
     editingAd := editingAd st; editPrompt := v;
     isEditing := isEditing st |}.

Definition setIsEditing (v : bool) (st : State) : State :=
  {| imageForAd := imageForAd st; styleImage := styleImage st;
     logoImage := logoImage st; aspectRatio := aspectRatio st;
     adCopy := adCopy st; skipAdCopy := skipAdCopy st;
     generatedAds := generatedAds st;
     isGeneratingAds := isGeneratingAds st;
     regeneratingIndex := regeneratingIndex st;
     loadingMessage := loadingMessage st; error := error st;
     editingAd := editingAd st; editPrompt := editPrompt st;
     isEditing := v |}.

(** The functional update [prev => prev ? { ...prev, history } : null]. *)
Definition withHistory (f : list slot -> list slot) (prev : option EditSession)
  : option EditSession :=
  match prev with
  | Some s =>
      Some {| index := index s; originalData := originalData s;
              history := f (history s) |}
  | None => None
  end.

Definition isSome (A : Type) (o : option A) : bool :=
  match o with Some _ => true | None => false end.

(** [isFormValid] *)
Definition isFormValid (st : State) : bool :=
  let copyIsValid :=
    skipAdCopy st
    || (nonEmpty (headline (adCopy st)) && nonEmpty (description (adCopy st))) in
  isSome (imageForAd st) && isSome (styleImage st) && isSome (logoImage st)
  && copyIsValid.

Definition emptyCopy : AdCopy := {| headline := []; description := []; cta := [] |}.

Definition finalAdCopy (st : State) : AdCopy :=
  if skipAdCopy st then emptyCopy else adCopy st.

(** An operation suspended at its [await], with the arguments of the
    service call it awaits and what its continuation captured. *)
Inductive pending :=
| AwaitGenerateAds (productImage styleImage logoImage : ImageData)
    (copy : AdCopy) (ratio : jsstring)
| AwaitGenerateSingleAd (target : nat)
    (productImage styleImage logoImage : ImageData)
    (copy : AdCopy) (creativeDirection ratio : jsstring)
| AwaitEditAd (capturedAds : list slot) (capturedIndex : nat)
    (baseImage prompt : jsstring).

(** *** [handleSubmit] *)

Definition handleSubmit_start (st : State) : State * option pending :=
  match isFormValid st, imageForAd st, styleImage st, logoImage st,
        regeneratingIndex st with
  | true, Some image, Some style, Some logo, None =>
      let st := setIsGeneratingAds true st in
      let st := setLoadingMessage (cu "Prepping the blender...") st in
      let st := setError None st in
      let st := setGeneratedAds [] st in
      let st := setLoadingMessage
                  (cu "Blending your ad milkshake... this may take a minute.") st in
      (st, Some (AwaitGenerateAds image style logo (finalAdCopy st) (aspectRatio st)))
  | _, _, _, _, _ =>
      (setError
         (Some (cu "Please fill out all required fields and upload all required images."))
         st,
       None)
  end.

Definition handleSubmit_resume (r : result (list jsstring)) (st : State) : State :=
  let st := match r with
            | Resolved ads => setGeneratedAds (map Some ads) st
            | Failed message => setError (Some message) st
            end in
  setLoadingMessage [] (setIsGeneratingAds false st).

(** *** [handleRegenerateAd] *)

Definition handleRegenerateAd_start (target : nat) (st : State)
  : State * option pending :=
  match isGeneratingAds st, regeneratingIndex st,
        imageForAd st, styleImage st, logoImage st with
  | false, None, Some image, Some style, Some logo =>
      let st := setRegeneratingIndex (Some target) st in
      let st := setError None st in
      match nth_error styleVariations target with
      | Some (c :: direction) =>
          (st, Some (AwaitGenerateSingleAd target image style logo
                       (finalAdCopy st) (c :: direction) (aspectRatio st)))
      | _ =>
          let st := setError
                      (Some (cu "Invalid creative direction index: " ++ ofNat target))
                      st in
          (setRegeneratingIndex None st, None)
      end
  | _, _, _, _, _ => (st, None)
  end.

Definition handleRegenerateAd_resume (target : nat) (r : result jsstring)
    (st : State) : State :=
  let st := match r with
            | Resolved newAd =>
                setGeneratedAds (arraySet (generatedAds st) target (Some newAd)) st
            | Failed message => setError (Some message) st
            end in
  setRegeneratingIndex None st.

(** *** The edit session *)

Definition handleSelectAdForEdit (target : nat) (st : State) : State :=
  let adData := arrayGet (generatedAds st) target in
  setEditingAd
    (Some {| index := target; originalData := adData; history := [adData] |})
    st.

Definition handleCancelEdit (st : State) : State :=
  setError None (setEditPrompt [] (setEditingAd None st)).

Section WithEngine.

Variable E : Engine.

Definition handleApplyEdit_start (st : State) : State * option pending :=
  match editingAd st with
  | None => (st, None)
  | Some session =>
      if nonEmpty (trim (editPrompt st)) then
        let st1 := setError None (setIsEditing true st) in
        match lastOf (history session) with
        | Some currentImage =>
            (st1, Some (AwaitEditAd (generatedAds st) (index session)
                          currentImage (editPrompt st)))
        | None =>
            (* [baseImage.match] of [undefined]: a TypeError inside the try *)
            (setIsEditing false (setError (Some (typeErrorMessage E)) st1), None)
        end
      else (st, None)
  end.

End WithEngine.

Definition handleApplyEdit_resume (capturedAds : list slot) (capturedIndex : nat)
    (r : result jsstring) (st : State) : State :=
  let st := match r with
            | Resolved newAdData =>
                let updatedAds := arraySet capturedAds capturedIndex (Some newAdData) in
                let st := setGeneratedAds updatedAds st in
                let st := setEditingAd
                            (withHistory (fun h => h ++ [Some newAdData]) (editingAd st))
                            st in
                setEditPrompt [] st
            | Failed message => setError (Some message) st
            end in
  setIsEditing false st.

Definition handleUndoEdit (st : State) : State :=
  match editingAd st with
  | None => st
  | Some session =>
      if List.length (history session) <=? 1 then st
      else
        let newHistory := removelast (history session) in
        let previousAdData := lastOf newHistory in
        let updatedAds := arraySet (generatedAds st) (index session) previousAdData in
        let st := setGeneratedAds updatedAds st in
        setEditingAd (withHistory (fun _ => newHistory) (editingAd st)) st
  end.

Definition handleRevertToOriginal (st : State) : State :=
  match editingAd st with
  | None => st
  | Some session =>
      if List.length (history session) <=? 1 then st
      else
        let originalAdData := originalData session in
        let updatedAds := arraySet (generatedAds st) (index session) originalAdData in
        let st := setGeneratedAds updatedAds st in
        setEditingAd (withHistory (fun _ => [originalAdData]) (editingAd st)) st
  end.

(** *** The page: which controls are shown and enabled, and the events *)

Definition errorShown (st : State) : bool :=
  match error st with
  | Some message => nonEmpty message
  | None => false
  end.

(** [!isGeneratingAds && !error && editingAd !== null] *)
Definition editPanelShown (st : State) : bool :=
  negb (isGeneratingAds st) && negb (errorShown st) && isSome (editingAd st).

(** [!isGeneratingAds && !error && editingAd === null &&
    generatedAds.length > 0] *)
Definition resultsShown (st : State) : bool :=
  negb (isGeneratingAds st) && negb (errorShown st)
  && negb (isSome (editingAd st)) && (0 <? List.length (generatedAds st)).

Definition historyAtMostOne (st : State) : bool :=
  match editingAd st with
  | Some session => List.length (history session) <=? 1
  | None => true
  end.

Section System.

Variable E : Engine.
Variable P : Type.
Variable generateContent : Request -> P -> outcome Response * P.
Variable editPromptText : jsstring -> jsstring.
Variable adPromptText : AdCopy -> jsstring -> jsstring -> jsstring.

(** The page together with the operations suspended at an [await]. *)
Record System := { page : State; inflight : list pending }.

(** A click on a control, typing in the edit prompt, or the settling of
    the [k]-th suspended operation.  A call chain that settles has seen the
    provider as [worlds 0] (for [generateAds], direction [i] as [worlds i],
    settling at time [settles i]).  The rejection that [editAd] creates for
    a malformed base image, without a provider call, arrives as a [Settle]
    event as well. *)
Inductive event :=
| ClickGenerate
| ClickRegenerate (target : nat)
| ClickEdit (target : nat)
| ClickBack
| ClickApply
| ClickUndo
| ClickRevert
| TypeEditPrompt (text : jsstring)
| Settle (k : nat) (worlds : nat -> P) (settles : nat -> nat).

(** The [disabled] attributes and the conditions under which the panels
    are rendered.  A card of [ResultsDisplay] exists for an element that is
    present. *)
Definition enabled (ev : event) (st : State) : bool :=
  match ev with
  | ClickGenerate =>
      negb (negb (isFormValid st) || isGeneratingAds st
            || isSome (regeneratingIndex st))
  | ClickRegenerate target | ClickEdit target =>
      resultsShown st && isSome (arrayGet (generatedAds st) target)
      && negb (isSome (regeneratingIndex st))
  | ClickBack => editPanelShown st
  | ClickApply =>
      editPanelShown st
      && negb (negb (nonEmpty (trim (editPrompt st))) || isEditing st
               || isGeneratingAds st || isSome (regeneratingIndex st))
  | ClickUndo | ClickRevert =>
      editPanelShown st && negb (isEditing st || historyAtMostOne st)
  | TypeEditPrompt _ => editPanelShown st && negb (isEditing st)
  | Settle _ _ _ => true
  end.

(** The awaited service call, then the continuation. *)
Definition settleWith (op : pending) (worlds : nat -> P) (settles : nat -> nat)
    (st : State) : State :=
  match op with
  | AwaitGenerateAds image style logo copy ratio =>
      handleSubmit_resume
        (generateAds E generateContent adPromptText image style logo copy ratio
           worlds settles)
        st
  | AwaitGenerateSingleAd target image style logo copy direction ratio =>
      handleRegenerateAd_resume target
        (fst (generateSingleAd E generateContent adPromptText image style logo
                copy direction ratio (worlds 0)))
        st
  | AwaitEditAd capturedAds capturedIndex baseImage prompt =>
      handleApplyEdit_resume capturedAds capturedIndex
        (fst (editAd E generateContent editPromptText baseImage prompt (worlds 0)))
        st
  end.

Definition launch (started : State * option pending) (sys : System) : System :=
  match started with
  | (st, Some op) => {| page := st; inflight := inflight sys ++ [op] |}
  | (st, None) => {| page := st; inflight := inflight sys |}
  end.

Definition update (st : State) (sys : System) : System :=
  {| page := st; inflight := inflight sys |}.

Fixpoint removeNth (A : Type) (k : nat) (l : list A) : list A :=
  match k, l with
  | _, [] => []
  | 0, _ :: rest => rest
  | S k', x :: rest => x :: removeNth k' rest
  end.

Definition step (ev : event) (sys : System) : System :=
  if enabled ev (page sys) then
    match ev with
    | ClickGenerate => launch (handleSubmit_start (page sys)) sys
    | ClickRegenerate target => launch (handleRegenerateAd_start target (page sys)) sys
    | ClickEdit target => update (handleSelectAdForEdit target (page sys)) sys
    | ClickBack => update (handleCancelEdit (page sys)) sys
    | ClickApply => launch (handleApplyEdit_start E (page sys)) sys
    | ClickUndo => update (handleUndoEdit (page sys)) sys
    | ClickRevert => update (handleRevertToOriginal (page sys)) sys
    | TypeEditPrompt text => update (setEditPrompt text (page sys)) sys
    | Settle k worlds settles =>
        match nth_error (inflight sys) k with
        | Some op =>
            {| page := settleWith op worlds settles (page sys);
               inflight := removeNth k (inflight sys) |}
        | None => sys
        end
    end
  else sys.

Definition run (evs : list event) (sys : System) : System :=
  fold_left (fun s ev => step ev s) evs sys.

(** Every event of the list finds its control shown and enabled when it
    happens. *)
Fixpoint allEnabled (evs : list event) (sys : System) : bool :=
  match evs with
  | [] => true
  | ev :: rest => enabled ev (page sys) && allEnabled rest (step ev sys)
  end.

(** [handleApplyEdit] from the click to the end of its continuation, with
    no other event in between; the edit call sees the provider as [w]. *)
Definition handleApplyEdit (w : P) (st : State) : State :=
  match handleApplyEdit_start E st with
  | (st1, Some (AwaitEditAd capturedAds capturedIndex baseImage prompt)) =>
      handleApplyEdit_resume capturedAds capturedIndex
        (fst (editAd E generateContent editPromptText baseImage prompt w)) st1
  | (st1, _) => st1
  end.

(** [handleRegenerateAd], likewise. *)
Definition handleRegenerateAd (target : nat) (w : P) (st : State) : State :=
  match handleRegenerateAd_start target st with
  | (st1, Some (AwaitGenerateSingleAd t image style logo copy direction ratio)) =>
      handleRegenerateAd_resume t
        (fst (generateSingleAd E generateContent adPromptText image style logo
                copy direction ratio w)) st1
  | (st1, _) => st1
  end.

End System.

Arguments ClickGenerate {P}.
Arguments ClickRegenerate {P} target.
Arguments ClickEdit {P} target.
Arguments ClickBack {P}.
Arguments ClickApply {P}.
Arguments ClickUndo {P}.
Arguments ClickRevert {P}.
Arguments TypeEditPrompt {P} text.

End App.

(** ** Instrumentation and sample data used in the statements *)

Section Attempts.

Variables P T : Type.
Variable apiCall : P -> outcome T * P.

(** The same operation, counting its invocations. *)
Definition counted (wn : P * nat) : outcome T * (P * nat) :=
  let (o, w') := apiCall (fst wn) in (o, (w', S (snd wn))).

(** The provider world after [n] invocations in sequence, and what the
    invocation number [k] (from 0) yields. *)
Fixpoint worldAfter (n : nat) (w : P) : P :=
  match n with
  | 0 => w
  | S n' => worldAfter n' (snd (apiCall w))
  end.

Definition attempt (k : nat) (w : P) : outcome T :=
  fst (apiCall (worldAfter k w)).

(** Each of the [MAX_RETRIES] invocations that start from [w] throws
    [e]. *)
Definition everyAttemptThrows (w : P) (e : thrown) : Prop :=
  forall j, j < MAX_RETRIES -> attempt j w = Threw e.

End Attempts.

(** [s] has no code unit [c]. *)
Definition lacks (c : N) (s : jsstring) : bool :=
  forallb (fun d => negb (N.eqb d c)) s.

Definition quotaPayload : jsstring :=
  cuq "{'error':{'status':'RESOURCE_EXHAUSTED','message':'x'}}".

Definition rateLimitLink : jsstring :=
  cu "https://ai.google.dev/gemini-api/docs/rate-limits".

(** The shape [data:image/<subtype>;base64,<payload>]. *)
Definition dataUrlShape (s : jsstring) : Prop :=
  exists subtype payload,
    subtype <> [] /\ payload <> [] /\
    s = cu "data:image/" ++ subtype ++ cu ";base64," ++ payload.

(** The part of a number lexeme before its exponent. *)
Fixpoint mantissa (lexeme : jsstring) : jsstring :=
  match lexeme with
  | [] => []
  | c :: rest => if ((c =? 101) || (c =? 69))%N then [] else c :: mantissa rest
  end.

(** A sample engine: it prints a number as its lexeme and takes it for
    zero when its mantissa has no digit from 1 to 9. *)
Definition plainEngine : Engine :=
  {| numberToString := fun lexeme => lexeme;
     numberIsZero :=
       fun lexeme =>
         forallb (fun c => negb ((49 <=? c) && (c <=? 57))%N) (mantissa lexeme);
     typeErrorMessage := cu "Cannot read properties of undefined (reading 'match')" |}.

(** An operation that replays a script of outcomes, one per invocation,
    and throws once the script is used up. *)
Definition replay (T : Type) (script : list (outcome T))
  : outcome T * list (outcome T) :=
  match script with
  | o :: rest => (o, rest)
  | [] => (Threw (JsError (cu "fetch failed")), [])
  end.

(** A provider that answers from such a script, whatever the request. *)
Definition scripted (request : Request) (script : list (outcome Response))
  : outcome Response * list (outcome Response) :=
  replay script.

Definition safetyPayload : jsstring :=
  cuq "{'error':{'code':400,'status':'INVALID_ARGUMENT','message':'Blocked by Safety filters'}}".

Definition quotaSafetyPayload : jsstring :=
  cuq "{'error':{'status':'RESOURCE_EXHAUSTED','message':'safety'}}".

Definition imageResponse (mime payload : jsstring) : Response :=
  {| candidates :=
       Some [ {| content :=
                   Some {| parts :=
                             Some [ {| partInlineData :=
                                         Some {| blobData := Some payload;
                                                 blobMimeType := Some mime |} |} ] |} |} ] |}.

Definition noPromptText (prompt : jsstring) : jsstring := prompt.

Definition noAdPromptText (copy : AdCopy) (direction ratio : jsstring) : jsstring :=
  direction.

(** What an open edit session shows: its history, its live value (the
    last entry) and the element of [generatedAds] at its index. *)
Definition sessionHistory (st : App.State) : option (list App.slot) :=
  option_map App.history (App.editingAd st).

Definition liveValue (st : App.State) : App.slot :=
  match App.editingAd st with
  | Some session => App.lastOf (App.history session)
  | None => None
  end.

Definition sharedSlot (st : App.State) : App.slot :=
  match App.editingAd st with
  | Some session => App.arrayGet (App.generatedAds st) (App.index session)
  | None => None
  end.

(** A page with three results and a complete form, nothing in progress. *)
Definition sampleImage : ImageData :=
  {| data := cu "AAAA"; mimeType := cu "image/png" |}.

Definition adA : jsstring := cu "data:image/png;base64,AAAA".
Definition adB : jsstring := cu "data:image/png;base64,BBBB".
Definition adC : jsstring := cu "data:image/png;base64,CCCC".
Definition adR : jsstring := cu "data:image/png;base64,RRRR".
Definition adE : jsstring := cu "data:image/png;base64,EEEE".
Definition adF : jsstring := cu "data:image/png;base64,FFFF".

Definition readyPage : App.State :=
  {| App.imageForAd := Some sampleImage;
     App.styleImage := Some sampleImage;
     App.logoImage := Some sampleImage;
     App.aspectRatio := cu "1:1";
     App.adCopy := App.emptyCopy;
     App.skipAdCopy := true;
     App.generatedAds := [Some adA; Some adB; Some adC];
     App.isGeneratingAds := false;
     App.regeneratingIndex := None;
     App.loadingMessage := [];
     App.error := None;
     App.editingAd := None;
     App.editPrompt := [];
     App.isEditing := false |}.

Definition readySystem : App.System := {| App.page := readyPage; App.inflight := [] |}.

(** A provider world in which the next call returns the PNG [payload]. *)
Definition answering (payload : jsstring) : list (outcome Response) :=
  [Returned (imageResponse (cu "image/png") payload)].

(** The settled call of [generateAds] for direction [i]. *)
Definition directionCall (E : Engine) (P : Type)
    (generateContent : Request -> P -> outcome Response * P)
    (adPromptText : AdCopy -> jsstring -> jsstring -> jsstring)
    (productImage styleImage logoImage : ImageData) (adCopy : AdCopy)
    (aspectRatio : jsstring) (worlds : nat -> P) (i : nat) : result jsstring :=
  fst (generateSingleAd E generateContent adPromptText productImage styleImage
         logoImage adCopy (nth i styleVariations []) aspectRatio (worlds i)).

(** The clicks that put an edit and a regeneration in flight together:
    open slot 0 for editing, type a prompt, Apply, Back to Results,
    Regenerate on slot 1. *)
Definition overlapClicks (P : Type) : list (App.event P) :=
  [ App.ClickEdit 0; App.TypeEditPrompt (cu "brighter"); App.ClickApply;
    App.ClickBack; App.ClickRegenerate 1 ].

(** The clicks that start a batch while an edit is in flight. *)
Definition batchDuringEditClicks (P : Type) : list (App.event P) :=
  [ App.ClickEdit 0; App.TypeEditPrompt (cu "brighter"); App.ClickApply;
    App.ClickGenerate ].

(** The provider world seen by the chain of direction [i] in the samples:
    its call returns a PNG whose payload names the direction. *)
Definition sampleWorlds (i : nat) : list (outcome Response) :=
  answering (cu "AD" ++ ofNat i).

(** As [sampleWorlds], but every call for direction 1 throws. *)
Definition failingSecond (i : nat) : list (outcome Response) :=
  if i =? 1 then [] else sampleWorlds i.

(** Direction 2 settles first and direction 0 last. *)
Definition lastFirst (i : nat) : nat := 3 - i.

(** The sample page while slot 0 is being regenerated. *)
Definition regeneratingSystem : App.System :=
  App.step plainEngine scripted noPromptText noAdPromptText
    (App.ClickRegenerate 0) readySystem.

(** The sample page with slot 0 open for editing and [prompt] typed. *)
Definition editingPage (prompt : jsstring) : App.State :=
  App.setEditPrompt prompt (App.handleSelectAdForEdit 0 readyPage).

Definition editingSystem (prompt : jsstring) : App.System :=
  {| App.page := editingPage prompt; App.inflight := [] |}.

(** The same after a click on Apply: the edit is in flight. *)
Definition applyingSystem : App.System :=
  App.step plainEngine scripted noPromptText noAdPromptText App.ClickApply
    (editingSystem (cu "brighter")).

(** ** The rest of the service *)

(** [s.split(c)] for a separator of one code unit. *)
Fixpoint splitOn (c : N) (s : jsstring) : list jsstring :=
  match s with
  | [] => [[]]
  | d :: s' =>
      if N.eqb d c then [] :: splitOn c s'
      else
        match splitOn c s' with
        | segment :: rest => (d :: segment) :: rest
        | [] => [[d]]
        end
  end.

(** What the [FileReader] of [fileToBase64] reports: [onload] with
    [reader.result], or [onerror]. *)
Inductive readerEvent :=
| Loaded (readerResult : jsstring)
| ReadError.

(** The object [fileToBase64] resolves with; [data] is [undefined] when
    the result of the reader has no comma. *)
Record FileImage := { fileData : option jsstring; fileMimeType : jsstring }.

(** [fileToBase64(file)], given [file.type] and what the reader reports.
    [None] is the rejection of [onerror]. *)
Definition fileToBase64 (fileType : jsstring) (ev : readerEvent) : option FileImage :=
  match ev with
  | Loaded readerResult =>
      Some {| fileData := nth_error (splitOn 44 readerResult) 1;
              fileMimeType := fileType |}
  | ReadError => None
  end.

(** [`data:${imageData.mimeType};base64,${imageData.data}`], the address
    [App.tsx] builds for an image (lines 98 and 317). *)
Definition imageHref (image : ImageData) : jsstring :=
  cu "data:" ++ mimeType image ++ cu ";base64," ++ data image.

(** [keyof AdCopy] *)
Inductive CopyField := Headline | Description | Cta.

Definition fieldName (field : CopyField) : jsstring :=
  match field with
  | Headline => cu "headline"
  | Description => cu "description"
  | Cta => cu "cta"
  end.

(** The [limits] table of [getCopySuggestion]. *)
Definition copyLimit (field : CopyField) : nat :=
  match field with
  | Headline => 35
  | Description => 200
  | Cta => 25
  end.

(** [adCopy[field]] and [{ ...adCopy, [field]: value }] *)
Definition copyGet (copy : AdCopy) (field : CopyField) : jsstring :=
  match field with
  | Headline => headline copy
  | Description => description copy
  | Cta => cta copy
  end.

Definition copySet (copy : AdCopy) (field : CopyField) (value : jsstring) : AdCopy :=
  match field with
  | Headline =>
      {| headline := value; description := description copy; cta := cta copy |}
  | Description =>
      {| headline := headline copy; description := value; cta := cta copy |}
  | Cta =>
      {| headline := headline copy; description := description copy; cta := value |}
  end.

(** [text.replace] with the global pattern of one double quote and the
    empty replacement: every double quote is removed. *)
Definition removeQuotes (text : jsstring) : jsstring :=
  filter (fun c => negb (N.eqb c 34)) text.

Definition suggestionPrompt (field : CopyField) (currentCopy : jsstring) : jsstring :=
  cu "You are an expert ad copywriter. Refine the following ad " ++ fieldName field
  ++ cu " to be more concise and engaging, while staying true to the original intent. The new "
  ++ fieldName field ++ cu " must be under " ++ ofNat (copyLimit field)
  ++ cu " characters. Do not add any extra commentary, just return the refined text. Original "
  ++ fieldName field ++ cu ": " ++ 34%N :: currentCopy ++ [34%N].

Section ServiceRest.

Variable E : Engine.
Variable P : Type.
Variable generateContent : Request -> P -> outcome Response * P.

(** [response.text], a getter of the provider's library: the text of the
    response, or [undefined]. *)
Variable responseText : Response -> option jsstring.

(** The message of the [TypeError] for [undefined.trim()]. *)
Variable trimTypeError : jsstring.

(** The two prompt templates of [generateLifestyleImage] (lines 178-199
    and 212-225), with and without a reference image, as functions of the
    user's prompt. *)
Variable referencePromptText : jsstring -> jsstring.
Variable scenePromptText : jsstring -> jsstring.

(** The callback of [getCopySuggestion]. *)
Definition suggestionCall (request : Request) (w : P) : outcome jsstring * P :=
  match generateContent request w with
  | (Returned response, w') =>
      match responseText response with
      | Some text => (Returned (removeQuotes (trim text)), w')
      | None => (Threw (JsError trimTypeError), w')
      end
  | (Threw e, w') => (Threw e, w')
  end.

Definition getCopySuggestion (copyType : CopyField) (currentCopy : jsstring) (w : P)
  : result jsstring * P :=
  let request :=
    {| model := cu "gemini-2.5-flash";
       contents := [TextPart (suggestionPrompt copyType currentCopy)];
       responseModalities := [] |} in
  withRetries E (suggestionCall request)
    (cu "copy suggestion for " ++ fieldName copyType) w.

(** The callback of [generateLifestyleImage]: the image part as it came,
    not a data URL. *)
Definition lifestyleCall (request : Request) (w : P) : outcome Blob * P :=
  match generateContent request w with
  | (Returned response, w') =>
      match firstInlineData response with
      | Some blob => (Returned blob, w')
      | None =>
          (Threw (JsError (cu "No image was generated in the lifestyle creation step.")), w')
      end
  | (Threw e, w') => (Threw e, w')
  end.

Definition lifestyleRequest (productImage : ImageData) (prompt : jsstring)
    (referenceImage : option ImageData) : Request :=
  {| model := imageModel;
     contents :=
       match referenceImage with
       | Some reference =>
           [ TextPart (cu "**Product Photo:**");
             InlinePart productImage;
             TextPart (10%N :: 10%N :: cu "**Lifestyle Image Reference:**");
             InlinePart reference;
             TextPart (10%N :: 10%N :: cu "**Instructions:**" ++ 10%N :: referencePromptText prompt) ]
       | None =>
           [ InlinePart productImage; TextPart (scenePromptText prompt) ]
       end;
     responseModalities := [IMAGE] |}.

(** [generateLifestyleImage]; [aspectRatio] is a parameter the body never
    reads. *)
Definition generateLifestyleImage (productImage : ImageData) (prompt aspectRatio : jsstring)
    (referenceImage : option ImageData) (w : P) : result Blob * P :=
  withRetries E (lifestyleCall (lifestyleRequest productImage prompt referenceImage))
    (cu "lifestyle image generation") w.

End ServiceRest.


(** ** The rest of the application: copy, lifestyle image, inputs *)

Module Studio.

Import App.

Definition setImageForAd (v : option ImageData) (st : State) : State :=
  {| imageForAd := v; styleImage := styleImage st;
     logoImage := logoImage st; aspectRatio := aspectRatio st;
     adCopy := adCopy st; skipAdCopy := skipAdCopy st;
     generatedAds := generatedAds st;
     isGeneratingAds := isGeneratingAds st;
     regeneratingIndex := regeneratingIndex st;
     loadingMessage := loadingMessage st; error := error st;
     editingAd := editingAd st; editPrompt := editPrompt st;
     isEditing := isEditing st |}.

Definition setStyleImage (v : option ImageData) (st : State) : State :=
  {| imageForAd := imageForAd st; styleImage := v;
     logoImage := logoImage st; aspectRatio := aspectRatio st;
     adCopy := adCopy st; skipAdCopy := skipAdCopy st;
     generatedAds := generatedAds st;
     isGeneratingAds := isGeneratingAds st;
     regeneratingIndex := regeneratingIndex st;
     loadingMessage := loadingMessage st; error := error st;
     editingAd := editingAd st; editPrompt := editPrompt st;
     isEditing := isEditing st |}.

Definition setLogoImage (v : option ImageData) (st : State) : State :=
  {| imageForAd := imageForAd st; styleImage := styleImage st;
     logoImage := v; aspectRatio := aspectRatio st;
     adCopy := adCopy st; skipAdCopy := skipAdCopy st;
     generatedAds := generatedAds st;
     isGeneratingAds := isGeneratingAds st;
     regeneratingIndex := regeneratingIndex st;
     loadingMessage := loadingMessage st; error := error st;
     editingAd := editingAd st; editPrompt := editPrompt st;
     isEditing := isEditing st |}.

Definition setAdCopy (v : AdCopy) (st : State) : State :=
  {| imageForAd := imageForAd st; styleImage := styleImage st;
     logoImage := logoImage st; aspectRatio := aspectRatio st;
     adCopy := v; skipAdCopy := skipAdCopy st;
     generatedAds := generatedAds st;
     isGeneratingAds := isGeneratingAds st;
     regeneratingIndex := regeneratingIndex st;
     loadingMessage := loadingMessage st; error := error st;
     editingAd := editingAd st; editPrompt := editPrompt st;
     isEditing := isEditing st |}.

(** [isSuggestingCopy]: one flag per field of the copy. *)
Record Suggesting := {
  suggestingHeadline : bool;
  suggestingDescription : bool;
  suggestingCta : bool
}.

Definition suggestingGet (flags : Suggesting) (field : CopyField) : bool :=
  match field with
  | Headline => suggestingHeadline flags
  | Description => suggestingDescription flags
  | Cta => suggestingCta flags
  end.

Definition suggestingSet (flags : Suggesting) (field : CopyField) (v : bool)
  : Suggesting :=
  match field with
  | Headline =>
      {| suggestingHeadline := v;
         suggestingDescription := suggestingDescription flags;
         suggestingCta := suggestingCta flags |}
  | Description =>
      {| suggestingHeadline := suggestingHeadline flags;
         suggestingDescription := v;
         suggestingCta := suggestingCta flags |}
  | Cta =>
      {| suggestingHeadline := suggestingHeadline flags;
         suggestingDescription := suggestingDescription flags;
         suggestingCta := v |}
  end.

(** The cells of [App] that the handlers of the claims do not touch, next
    to the ones they do ([core]). *)
Record Page := {
  core : State;
  productImage : option ImageData;
  lifestylePrompt : jsstring;
  lifestyleReferenceImage : option ImageData;
  generatedLifestyleImage : option ImageData;
  isGeneratingLifestyle : bool;
  isSuggestingCopy : Suggesting
}.

Definition withCore (f : State -> State) (pg : Page) : Page :=
  {| core := f (core pg); productImage := productImage pg;
     lifestylePrompt := lifestylePrompt pg;
     lifestyleReferenceImage := lifestyleReferenceImage pg;
     generatedLifestyleImage := generatedLifestyleImage pg;
     isGeneratingLifestyle := isGeneratingLifestyle pg;
     isSuggestingCopy := isSuggestingCopy pg |}.

Definition setProductImage (v : option ImageData) (pg : Page) : Page :=
  {| core := core pg; productImage := v;
     lifestylePrompt := lifestylePrompt pg;
     lifestyleReferenceImage := lifestyleReferenceImage pg;
     generatedLifestyleImage := generatedLifestyleImage pg;
     isGeneratingLifestyle := isGeneratingLifestyle pg;
     isSuggestingCopy := isSuggestingCopy pg |}.

Definition setGeneratedLifestyleImage (v : option ImageData) (pg : Page) : Page :=
  {| core := core pg; productImage := productImage pg;
     lifestylePrompt := lifestylePrompt pg;
     lifestyleReferenceImage := lifestyleReferenceImage pg;
     generatedLifestyleImage := v;
     isGeneratingLifestyle := isGeneratingLifestyle pg;
     isSuggestingCopy := isSuggestingCopy pg |}.

Definition setIsGeneratingLifestyle (v : bool) (pg : Page) : Page :=
  {| core := core pg; productImage := productImage pg;
     lifestylePrompt := lifestylePrompt pg;
     lifestyleReferenceImage := lifestyleReferenceImage pg;
     generatedLifestyleImage := generatedLifestyleImage pg;
     isGeneratingLifestyle := v;
     isSuggestingCopy := isSuggestingCopy pg |}.

Definition setIsSuggestingCopy (v : Suggesting) (pg : Page) : Page :=
  {| core := core pg; productImage := productImage pg;
     lifestylePrompt := lifestylePrompt pg;
     lifestyleReferenceImage := lifestyleReferenceImage pg;
     generatedLifestyleImage := generatedLifestyleImage pg;
     isGeneratingLifestyle := isGeneratingLifestyle pg;
     isSuggestingCopy := v |}.

(** *** The copy fields *)

(** [handleCopyChange] *)
Definition handleCopyChange (field : CopyField) (value : jsstring) (pg : Page) : Page :=
  withCore (fun st => setAdCopy (copySet (adCopy st) field value) st) pg.

(** [handleCopySuggestion] up to its [await]: the field and the text
    handed to [getCopySuggestion]. *)
Definition handleCopySuggestion_start (field : CopyField) (pg : Page)
  : Page * option (CopyField * jsstring) :=
  let text := copyGet (adCopy (core pg)) field in
  if negb (nonEmpty text) || suggestingGet (isSuggestingCopy pg) field then (pg, None)
  else
    let pg := setIsSuggestingCopy (suggestingSet (isSuggestingCopy pg) field true) pg in
    let pg := withCore (setError None) pg in
    (pg, Some (field, text)).

Definition handleCopySuggestion_resume (field : CopyField) (r : result jsstring)
    (pg : Page) : Page :=
  let pg := match r with
            | Resolved suggestion =>
                withCore (fun st => setAdCopy (copySet (adCopy st) field suggestion) st) pg
            | Failed message => withCore (setError (Some message)) pg
            end in
  setIsSuggestingCopy (suggestingSet (isSuggestingCopy pg) field false) pg.

(** The Suggest button of [CopyInput]: [disabled={!value || isSuggesting}]. *)
Definition suggestEnabled (field : CopyField) (pg : Page) : bool :=
  negb (negb (nonEmpty (copyGet (adCopy (core pg)) field))
        || suggestingGet (isSuggestingCopy pg) field).

(** *** The lifestyle image *)

(** The call [handleGenerateLifestyle] awaits. *)
Inductive pendingLifestyle :=
| AwaitLifestyle (product : ImageData) (prompt ratio : jsstring)
    (reference : option ImageData).

Definition lifestyleGuardMessage : jsstring :=
  cu "Please provide a product image and a prompt for the lifestyle image.".

Definition handleGenerateLifestyle_start (pg : Page) : Page * option pendingLifestyle :=
  match productImage pg with
  | Some product =>
      if nonEmpty (trim (lifestylePrompt pg)) then
        let pg1 := setIsGeneratingLifestyle true pg in
        let pg1 := withCore (setError None) pg1 in
        let pg1 := setGeneratedLifestyleImage None pg1 in
        (pg1, Some (AwaitLifestyle product (lifestylePrompt pg) (cu "1:1")
                      (lifestyleReferenceImage pg)))
      else (withCore (setError (Some lifestyleGuardMessage)) pg, None)
  | None => (withCore (setError (Some lifestyleGuardMessage)) pg, None)
  end.

Definition handleGenerateLifestyle_resume (r : result ImageData) (pg : Page) : Page :=
  let pg := match r with
            | Resolved image =>
                withCore (setImageForAd (Some image))
                  (setGeneratedLifestyleImage (Some image) pg)
            | Failed message => withCore (setError (Some message)) pg
            end in
  setIsGeneratingLifestyle false pg.

(** [isLifestyleImageInUse] and [isOriginalImageInUse]: the [data] of the
    image chosen for the ads against the [data] of the other image. *)
Definition sameData (chosen : option ImageData) (other : option ImageData) : bool :=
  match other with
  | Some o =>
      match chosen with
      | Some c => eqb (data c) (data o)
      | None => false
      end
  | None => false
  end.

Definition isLifestyleImageInUse (pg : Page) : bool :=
  sameData (imageForAd (core pg)) (generatedLifestyleImage pg).

Definition isOriginalImageInUse (pg : Page) : bool :=
  sameData (imageForAd (core pg)) (productImage pg).

(** The buttons under the lifestyle image: Use this for Ads, and Revert to
    Original. *)
Definition useLifestyleImage (pg : Page) : Page :=
  withCore (setImageForAd (generatedLifestyleImage pg)) pg.

Definition revertToOriginalImage (pg : Page) : Page :=
  withCore (setImageForAd (productImage pg)) pg.

(** *** The three uploads *)

(** [setProductImage] from the product [FileInput], followed by the effect
    that depends on [productImage].  The effect runs when the value has
    changed; an upload is always a new object, and [null] after [null] is
    no change. *)
Definition onProductImageChange (v : option ImageData) (pg : Page) : Page :=
  let pg1 := setProductImage v pg in
  match v, productImage pg with
  | None, None => pg1
  | None, Some _ =>
      setGeneratedLifestyleImage None (withCore (setImageForAd None) pg1)
  | Some _, _ => withCore (setImageForAd v) pg1
  end.

Definition onStyleImageChange (v : option ImageData) (pg : Page) : Page :=
  withCore (setStyleImage v) pg.

Definition onLogoImageChange (v : option ImageData) (pg : Page) : Page :=
  withCore (setLogoImage v) pg.

End Studio.

(** *** [ResultsDisplay] *)

(** [image.substring(image.length - 10)]: the last ten code units, or the
    whole string when it is shorter. *)
Definition lastTen (image : jsstring) : jsstring :=
  skipn (List.length image - 10) image.

(** The React key of the card of slot [index]. *)
Definition cardKey (index : nat) (image : jsstring) : jsstring :=
  ofNat index ++ 45%N :: lastTen image.

(** The file name of the download of slot [index]. *)
Definition downloadName (index : nat) : jsstring :=
  cu "nano-banana-ad-option-" ++ ofNat (index + 1) ++ cu ".png".

(** ** What the further statements speak of *)

(** The words every message of [handleGeminiError] starts with. *)
Definition apology : jsstring :=
  cu "We have encountered problems in generating your assets".

(** The text of the [throw] after the loop of [withRetries]. *)
Definition operationFailed (context : jsstring) : jsstring :=
  cu "Operation failed for " ++ context ++ cu " after " ++ ofNat MAX_RETRIES
  ++ cu " attempts.".

(** The provider answers every call, and never with an image part. *)
Definition neverAnImage (P : Type)
    (generateContent : Request -> P -> outcome Response * P) : Prop :=
  forall request w,
    exists response, fst (generateContent request w) = Returned response
                     /\ firstInlineData response = None.

(** A provider whose responses carry no image part. *)
Definition textOnly (request : Request) (w : unit) : outcome Response * unit :=
  (Returned {| candidates := Some [ {| content := Some {| parts := Some [] |} |} ] |}, w).

Definition isBatchOp (op : App.pending) : bool :=
  match op with App.AwaitGenerateAds _ _ _ _ _ => true | _ => false end.









(** ** Sample data for the further statements *)

(** A payload of the provider that is neither a quota nor a policy error. *)
Definition overloadedPayload : jsstring :=
  cuq "{'error':{'code':503,'status':'UNAVAILABLE','message':'The model is overloaded'}}".

(** A text getter for the samples: every response reads as a quoted
    line with blanks around it. *)
Definition quotedText (response : Response) : option jsstring :=
  Some (cuq "  'Fresh shakes', fast  ").

(** The sample page after an edit of slot 0 that succeeded. *)
Definition editedPage : App.State :=
  App.handleApplyEdit plainEngine scripted noPromptText
    (answering (cu "EEEE")) (editingPage (cu "brighter")).

Definition draftCopy : AdCopy :=
  {| headline := cu "Banana"; description := cu "Milkshakes for everyone"; cta := [] |}.

Definition lifestyleImage : ImageData :=
  {| data := cu "LLLL"; mimeType := cu "image/png" |}.

(** The whole page with a product image, a draft of the copy and a
    lifestyle prompt; nothing in progress. *)
Definition studioPage (prompt : jsstring) : Studio.Page :=
  {| Studio.core := Studio.setAdCopy draftCopy readyPage;
     Studio.productImage := Some sampleImage;
     Studio.lifestylePrompt := prompt;
     Studio.lifestyleReferenceImage := None;
     Studio.generatedLifestyleImage := None;
     Studio.isGeneratingLifestyle := false;
     Studio.isSuggestingCopy :=
       {| Studio.suggestingHeadline := false;
          Studio.suggestingDescription := false;
          Studio.suggestingCta := false |} |}.


(** ** Facts about strings and the two regular expressions *)

Lemma eqb_eq (a b : jsstring) : eqb a b = true <-> a = b.
Proof.
  revert b; induction a as [|x a IH]; intros [|y b]; simpl; split;
    try congruence; try reflexivity.
  - intros H. apply andb_true_iff in H as [Hxy Hab].
    apply N.eqb_eq in Hxy. apply IH in Hab. congruence.
  - intros H. injection H as -> ->. rewrite N.eqb_refl. simpl. now apply IH.
Qed.

Lemma startsWith_app (p s : jsstring) : startsWith p (p ++ s) = true.
Proof.
  induction p as [|x p IH]; simpl; [reflexivity|].
  now rewrite N.eqb_refl, IH.
Qed.

Lemma startsWith_split (p s : jsstring) :
  startsWith p s = true -> s = p ++ skipn (List.length p) s.
Proof.
  revert s; induction p as [|x p IH]; intros s H; simpl in *; [reflexivity|].
  destruct s as [|y s]; [discriminate|].
  apply andb_true_iff in H as [Hxy Hps].
  apply N.eqb_eq in Hxy; subst y.
  simpl. f_equal. now apply IH.
Qed.

Lemma includes_here (needle s : jsstring) :
  startsWith needle s = true -> includes needle s = true.
Proof.
  intros H. destruct s; simpl; now rewrite H.
Qed.

Lemma includes_app (needle pre post : jsstring) :
  includes needle (pre ++ needle ++ post) = true.
Proof.
  induction pre as [|c pre IH].
  - simpl. apply includes_here. apply startsWith_app.
  - simpl. rewrite IH. apply orb_true_r.
Qed.

Lemma dotStarRBrace_none (s : jsstring) :
  lacks 125 s = true -> dotStarRBrace s = None.
Proof.
  induction s as [|c s IH]; simpl; [reflexivity|].
  intros H. apply andb_true_iff in H as [Hc Hs].
  rewrite (IH Hs). apply negb_true_iff in Hc. now rewrite Hc.
Qed.

Lemma dotStarRBrace_last (mid post : jsstring) :
  lacks 125 post = true ->
  dotStarRBrace (mid ++ 125%N :: post) = Some (mid ++ [125%N]).
Proof.
  intros Hpost. induction mid as [|c mid IH]; simpl.
  - now rewrite (dotStarRBrace_none _ Hpost).
  - now rewrite IH.
Qed.

(** The match of [/{.*}/s] runs from the first opening brace to the last
    closing brace. *)
Lemma matchBraces_span (pre mid post : jsstring) :
  lacks 123 pre = true -> lacks 125 post = true ->
  matchBraces (pre ++ 123%N :: mid ++ 125%N :: post)
  = Some (123%N :: mid ++ [125%N]).
Proof.
  intros Hpre Hpost. induction pre as [|c pre IH]; simpl.
  - now rewrite dotStarRBrace_last by assumption.
  - simpl in Hpre. apply andb_true_iff in Hpre as [Hc Hpre].
    apply negb_true_iff in Hc. rewrite Hc. now apply IH.
Qed.

Lemma matchBraces_none (s : jsstring) :
  lacks 123 s = true -> matchBraces s = None.
Proof.
  induction s as [|c s IH]; simpl; [reflexivity|].
  intros H. apply andb_true_iff in H as [Hc Hs].
  apply negb_true_iff in Hc. rewrite Hc. now apply IH.
Qed.

Lemma plusThenBase64_cons (c : N) (s : jsstring) :
  plusThenBase64 (c :: s) =
  if isLineTerminator c then None
  else
    match plusThenBase64 s with
    | Some (x, y) => Some (c :: x, y)
    | None =>
        if startsWith (cu ";base64,") s then
          let y := skipn 8 s in
          if nonEmpty y && noLineTerminator y then Some ([c], y) else None
        else None
    end.
Proof. reflexivity. Qed.

Lemma plusThenBase64_sound (s x y : jsstring) :
  plusThenBase64 s = Some (x, y) ->
  s = x ++ cu ";base64," ++ y /\ x <> [] /\ y <> [].
Proof.
  revert x y; induction s as [|c s IH]; intros x y; [discriminate|].
  rewrite plusThenBase64_cons.
  destruct (isLineTerminator c); [discriminate|].
  destruct (plusThenBase64 s) as [[x' y']|] eqn:Hrec.
  - intros H; injection H as <- <-.
    destruct (IH x' y' eq_refl) as (Hs & _ & Hy).
    split; [simpl; f_equal; exact Hs | split; [discriminate | exact Hy]].
  - destruct (startsWith (cu ";base64,") s) eqn:Hsw; [|discriminate].
    cbv zeta. pose proof (startsWith_split _ _ Hsw) as Hs.
    destruct (skipn 8 s) as [|d rest] eqn:Hskip; [discriminate|].
    match goal with
    | |- (if ?b then _ else _) = _ -> _ => destruct b; [|discriminate]
    end.
    intros H; injection H as <- <-.
    split; [|split; discriminate].
    simpl. f_equal. rewrite <- Hskip. exact Hs.
Qed.

Lemma matchDataUrl_shape (s mime payload : jsstring) :
  matchDataUrl s = Some (mime, payload) -> dataUrlShape s.
Proof.
  unfold matchDataUrl.
  destruct (startsWith (cu "data:image/") s) eqn:Hsw; [|discriminate].
  destruct (plusThenBase64 (skipn 11 s)) as [[x y]|] eqn:Hp; [|discriminate].
  intros _. apply plusThenBase64_sound in Hp as (Hs & Hx & Hy).
  exists x, y. split; [exact Hx|split; [exact Hy|]].
  rewrite <- Hs. exact (startsWith_split _ _ Hsw).
Qed.

(** ** The retry wrapper *)

Section RetryFacts.

Variable E : Engine.
Variables P T : Type.
Variable apiCall : P -> outcome T * P.
Variable context : jsstring.

Lemma attempt_S (k : nat) (w : P) :
  attempt apiCall (S k) w = attempt apiCall k (snd (apiCall w)).
Proof. reflexivity. Qed.

Lemma counted_eq (w : P) (c : nat) :
  counted apiCall (w, c) = (fst (apiCall w), (snd (apiCall w), S c)).
Proof. unfold counted. simpl. now destruct (apiCall w). Qed.

(** The loop never invokes the operation more often than it has
    iterations left. *)
Lemma retryLoop_count_le (remaining i : nat) (w : P) (c : nat) :
  snd (snd (retryLoop E remaining i (counted apiCall) context (w, c)))
  <= c + remaining.
Proof.
  revert i w c. induction remaining as [|r IH]; intros i w c; simpl.
  - lia.
  - rewrite counted_eq. destruct (fst (apiCall w)); simpl.
    + lia.
    + destruct (i =? 2); simpl; [lia|].
      specialize (IH (S i) (snd (apiCall w)) (S c)). lia.
Qed.

(** Failures followed by a success: the loop stops at the success. *)
Lemma retryLoop_success (remaining : nat) :
  forall (i k : nat) (w : P) (c : nat) (v : T),
    i + remaining = MAX_RETRIES ->
    1 <= k <= remaining ->
    (forall j, j < k - 1 -> exists e, attempt apiCall j w = Threw e) ->
    attempt apiCall (k - 1) w = Returned v ->
    retryLoop E remaining i (counted apiCall) context (w, c)
    = (Resolved v, (worldAfter apiCall k w, c + k)).
Proof.
  induction remaining as [|r IH]; intros i k w c v Hsum Hk Hfail Hok; [lia|].
  simpl. rewrite counted_eq.
  destruct k as [|[|k']]; [lia| |].
  - (* the first invocation succeeds *)
    simpl in Hok. unfold attempt in Hok. simpl in Hok. rewrite Hok.
    simpl. now rewrite Nat.add_1_r.
  - (* the first invocation throws and is not the last one allowed *)
    destruct (Hfail 0 ltac:(lia)) as [e He].
    unfold attempt in He. simpl in He. rewrite He.
    replace (i =? 2) with false
      by (symmetry; apply Nat.eqb_neq; unfold MAX_RETRIES in *; lia).
    rewrite (IH (S i) (S k') (snd (apiCall w)) (S c) v).
    + simpl. do 2 f_equal. lia.
    + lia.
    + lia.
    + intros j Hj. rewrite <- attempt_S. apply Hfail. lia.
    + replace (S k' - 1) with k' by lia. rewrite <- attempt_S.
      replace (S (S k') - 1) with (S k') in Hok by lia. exact Hok.
Qed.

(** Only failures: the loop runs out and classifies the last error. *)
Lemma retryLoop_exhausted (remaining : nat) :
  forall (i : nat) (w : P) (c : nat) (e : thrown),
    i + remaining = MAX_RETRIES ->
    1 <= remaining ->
    (forall j, j < remaining - 1 -> exists e', attempt apiCall j w = Threw e') ->
    attempt apiCall (remaining - 1) w = Threw e ->
    retryLoop E remaining i (counted apiCall) context (w, c)
    = (Failed (handleGeminiError E e context),
       (worldAfter apiCall remaining w, c + remaining)).
Proof.
  induction remaining as [|r IH]; intros i w c e Hsum Hr Hfail Hlast; [lia|].
  simpl. rewrite counted_eq.
  destruct r as [|r'].
  - (* this is the last iteration *)
    simpl in Hlast. unfold attempt in Hlast. simpl in Hlast. rewrite Hlast.
    replace (i =? 2) with true
      by (symmetry; apply Nat.eqb_eq; unfold MAX_RETRIES in *; lia).
    simpl. now rewrite Nat.add_1_r.
  - destruct (Hfail 0 ltac:(lia)) as [e0 He0].
    unfold attempt in He0. simpl in He0. rewrite He0.
    replace (i =? 2) with false
      by (symmetry; apply Nat.eqb_neq; unfold MAX_RETRIES in *; lia).
    rewrite (IH (S i) (snd (apiCall w)) (S c) e).
    + simpl. do 2 f_equal. lia.
    + lia.
    + lia.
    + intros j Hj. rewrite <- attempt_S. apply Hfail. lia.
    + replace (S r' - 1) with r' by lia. rewrite <- attempt_S.
      replace (S (S r') - 1) with (S r') in Hlast by lia. exact Hlast.
Qed.

(** A rejection of [withRetries] is always a classified one. *)
Lemma withRetries_failed_classified (w : P) (m : jsstring) :
  fst (withRetries E apiCall context w) = Failed m ->
  exists e, m = handleGeminiError E e context.
Proof.
  unfold withRetries, MAX_RETRIES. simpl.
  destruct (apiCall w) as [[v|e0] w0]; simpl; [discriminate|].
  destruct (apiCall w0) as [[v|e1] w1]; simpl; [discriminate|].
  destruct (apiCall w1) as [[v|e2] w2]; simpl; [discriminate|].
  intros H; injection H as <-. now exists e2.
Qed.

Lemma withRetries_everyAttemptThrows (e : thrown) (w : P) :
  everyAttemptThrows apiCall w e ->
  fst (withRetries E apiCall context w) = Failed (handleGeminiError E e context).
Proof.
  intros H.
  pose proof (H 0 ltac:(unfold MAX_RETRIES; lia)) as H0.
  pose proof (H 1 ltac:(unfold MAX_RETRIES; lia)) as H1.
  pose proof (H 2 ltac:(unfold MAX_RETRIES; lia)) as H2.
  unfold attempt in H0, H1, H2. simpl in H0, H1, H2.
  unfold withRetries, MAX_RETRIES. simpl.
  destruct (apiCall w) as [o0 w0]. simpl in *. subst o0.
  destruct (apiCall w0) as [o1 w1]. simpl in *. subst o1.
  destruct (apiCall w1) as [o2 w2]. simpl in *. subst o2.
  reflexivity.
Qed.

(** C2.  [withRetries] invokes the operation at most [MAX_RETRIES] = 3
    times, one after the other.  If the first [k - 1] invocations throw
    and invocation [k] (1 <= k <= 3) returns [v], [withRetries] resolves
    with [v] after exactly [k] invocations.  If all three throw, it never
    resolves: it rejects once, with the message [handleGeminiError] builds
    from the error of the third invocation, after exactly 3 invocations. *)
Theorem withRetries_attempts (w : P) :
  snd (snd (withRetries E (counted apiCall) context (w, 0))) <= MAX_RETRIES
  /\ (forall k v,
        1 <= k <= MAX_RETRIES ->
        (forall j, j < k - 1 -> exists e, attempt apiCall j w = Threw e) ->
        attempt apiCall (k - 1) w = Returned v ->
        withRetries E (counted apiCall) context (w, 0)
        = (Resolved v, (worldAfter apiCall k w, k)))
  /\ (forall e,
        (forall j, j < MAX_RETRIES - 1 -> exists e', attempt apiCall j w = Threw e') ->
        attempt apiCall (MAX_RETRIES - 1) w = Threw e ->
        withRetries E (counted apiCall) context (w, 0)
        = (Failed (handleGeminiError E e context),
           (worldAfter apiCall MAX_RETRIES w, MAX_RETRIES))).
Proof.
  unfold withRetries. split; [|split].
  - apply (retryLoop_count_le MAX_RETRIES 0 w 0).
  - intros k v Hk Hfail Hok.
    apply retryLoop_success with (i := 0) (c := 0); trivial.
  - intros e Hfail Hlast.
    apply retryLoop_exhausted with (i := 0) (c := 0); trivial.
    unfold MAX_RETRIES; lia.
Qed.

End RetryFacts.

(** ** The error classifier *)

Section ClassifierFacts.

Variable E : Engine.
Variables P T : Type.
Variable apiCall : P -> outcome T * P.
Variable context : jsstring.

(** A message without an opening brace is reported as it is. *)
Lemma handleGeminiError_no_brace (rawMessage : jsstring) :
  lacks 123 rawMessage = true ->
  handleGeminiError E (JsError rawMessage) context = transportMessage rawMessage.
Proof.
  intros H. unfold handleGeminiError. now rewrite (matchBraces_none _ H).
Qed.

Lemma quotaPayload_braces :
  exists mid, quotaPayload = 123%N :: mid ++ [125%N] /\
              parse (123%N :: mid ++ [125%N])
              = Some (JObject
                        [(cu "error",
                          JObject [(cu "status", JString (cu "RESOURCE_EXHAUSTED"));
                                   (cu "message", JString (cu "x"))])]).
Proof.
  exists (removelast (tl quotaPayload)). split; vm_compute; reflexivity.
Qed.

Lemma handleGeminiError_quotaPayload (pre post : jsstring) :
  lacks 123 pre = true -> lacks 125 post = true ->
  handleGeminiError E (JsError (pre ++ quotaPayload ++ post)) context = quotaMessage.
Proof.
  intros Hpre Hpost. destruct quotaPayload_braces as (mid & Hmid & Hparse).
  rewrite Hmid. unfold handleGeminiError.
  replace (pre ++ (123%N :: mid ++ [125%N]) ++ post)
    with (pre ++ 123%N :: mid ++ 125%N :: post)
    by (simpl; now rewrite <- app_assoc).
  rewrite (matchBraces_span pre mid post Hpre Hpost), Hparse.
  reflexivity.
Qed.

(** C8, as the code has it.  If every attempt throws an error whose
    message is the payload with RESOURCE_EXHAUSTED as status, possibly
    after text without an opening brace and before text without a closing
    brace, the message surfaced by [withRetries] is the quota message; it
    contains the link to the rate-limit page and is not the provider-error
    message built from the status and the message text. *)
Theorem quota_payload_classified (w : P) (pre post : jsstring) :
  lacks 123 pre = true ->
  lacks 125 post = true ->
  everyAttemptThrows apiCall w (JsError (pre ++ quotaPayload ++ post)) ->
  fst (withRetries E apiCall context w) = Failed quotaMessage
  /\ includes rateLimitLink quotaMessage = true
  /\ quotaMessage <> providerMessage (cu "RESOURCE_EXHAUSTED") (cu "x").
Proof.
  intros Hpre Hpost Hthrows. split; [|split].
  - rewrite (withRetries_everyAttemptThrows E context Hthrows).
    now rewrite handleGeminiError_quotaPayload.
  - vm_compute. reflexivity.
  - intros Heq. apply eqb_eq in Heq. vm_compute in Heq. discriminate.
Qed.

Lemma prop_found_truthy (v : jsval) (key : jsstring) (j : json) :
  prop v key = Some (Val j) -> truthy E v = true.
Proof.
  destruct v as [|[ | | | | |fields]]; simpl; try discriminate.
  reflexivity.
Qed.

Lemma toLowerCase_safety_nonEmpty (mid : jsstring) :
  toLowerCase mid = cu "safety" -> mid <> [].
Proof. intros H ->. discriminate. Qed.

(** C9, as the code has it.  The policy message is chosen from the parsed
    payload: if every attempt throws an error whose brace span parses to a
    value with an [error.message] string that contains safety in any letter
    case, and [error.status] is not the string RESOURCE_EXHAUSTED, the
    message surfaced by [withRetries] is the policy message. *)
Theorem safety_payload_classified (w : P)
    (rawMessage span : jsstring) (parsed : json) (parsedError status : jsval)
    (pre mid post : jsstring) :
  everyAttemptThrows apiCall w (JsError rawMessage) ->
  matchBraces rawMessage = Some span ->
  parse span = Some parsed ->
  prop (Val parsed) (cu "error") = Some parsedError ->
  prop parsedError (cu "message") = Some (Val (JString (pre ++ mid ++ post))) ->
  toLowerCase mid = cu "safety" ->
  prop parsedError (cu "status") = Some status ->
  strictEqualsString status (cu "RESOURCE_EXHAUSTED") = false ->
  fst (withRetries E apiCall context w) = Failed policyMessage.
Proof.
  intros Hthrows Hspan Hparse Herror Hmessage Hmid Hstatus Hcode.
  rewrite (withRetries_everyAttemptThrows E context Hthrows).
  unfold handleGeminiError. rewrite Hspan, Hparse.
  unfold classifyParsed. rewrite Herror.
  rewrite (prop_found_truthy _ _ Hmessage), Hmessage, Hstatus.
  assert (Hne : truthy E (Val (JString (pre ++ mid ++ post))) = true).
  { simpl. pose proof (toLowerCase_safety_nonEmpty Hmid) as Hnil.
    destruct pre; [destruct mid; [congruence|]|]; reflexivity. }
  rewrite Hne.
  assert (Hcode' : strictEqualsString
                     (if truthy E status then status else Val (JString (cu "N/A")))
                     (cu "RESOURCE_EXHAUSTED") = false).
  { destruct (truthy E status); [exact Hcode|reflexivity]. }
  rewrite Hcode'.
  unfold toLowerCase in *. rewrite !map_app, Hmid, includes_app.
  reflexivity.
Qed.

End ClassifierFacts.

(** Against C8 as stated.  The payload followed by a stray closing brace:
    the message contains the payload, but the span taken by
    [/{.*}/s] is no longer JSON, [JSON.parse] throws, and the message is the
    generic fallback, not the quota message. *)
Lemma quota_payload_with_trailing_brace :
  let message := quotaPayload ++ cu " }" in
  includes quotaPayload message = true
  /\ everyAttemptThrows (fun w : unit => (@Threw unit (JsError message), w)) tt
       (JsError message)
  /\ fst (withRetries plainEngine
            (fun w : unit => (@Threw unit (JsError message), w)) (cu "ad generation") tt)
     = Failed defaultMessage
  /\ defaultMessage <> quotaMessage.
Proof.
  cbv zeta. split; [|split; [|split]].
  - vm_compute. reflexivity.
  - intros j Hj. reflexivity.
  - vm_compute. reflexivity.
  - intros Heq. apply eqb_eq in Heq. vm_compute in Heq. discriminate.
Qed.

(** Against C9 as stated.  A network-style error that mentions safety
    but carries no JSON: the
    message is the transport message with the raw text, not the policy
    message.  And a payload whose message is safety but whose status is
    RESOURCE_EXHAUSTED: the status is tested first and the message is the
    quota message. *)
Lemma safety_without_policy_message :
  let message := cu "Blocked for SAFETY reasons" in
  (includes (cu "safety") (toLowerCase message) = true
   /\ everyAttemptThrows (fun w : unit => (@Threw unit (JsError message), w)) tt
       (JsError message)
   /\ fst (withRetries plainEngine
             (fun w : unit => (@Threw unit (JsError message), w)) (cu "ad generation") tt)
      = Failed (transportMessage message)
   /\ transportMessage message <> policyMessage)
  /\ (includes (cu "safety") (toLowerCase quotaSafetyPayload) = true
      /\ fst (withRetries plainEngine
                (fun w : unit => (@Threw unit (JsError quotaSafetyPayload), w))
                (cu "ad generation") tt)
         = Failed quotaMessage
      /\ quotaMessage <> policyMessage).
Proof.
  cbv zeta. split; [split; [|split; [|split]]|split; [|split]].
  - vm_compute. reflexivity.
  - intros j Hj. reflexivity.
  - vm_compute. reflexivity.
  - intros Heq. apply eqb_eq in Heq. vm_compute in Heq. discriminate.
  - vm_compute. reflexivity.
  - vm_compute. reflexivity.
  - intros Heq. apply eqb_eq in Heq. vm_compute in Heq. discriminate.
Qed.

(** ** The batch: [Promise.all] over the three directions *)

Lemma earliestRejection_none (T : Type) (ps : list (nat * result T)) :
  earliestRejection ps = None ->
  map snd ps = map Resolved (resolvedValues ps).
Proof.
  induction ps as [|[t [v|m]] ps IH]; simpl; intros H.
  - reflexivity.
  - f_equal. now apply IH.
  - destruct (earliestRejection ps) as [[t' m']|]; [|discriminate].
    destruct (t' <? t); discriminate.
Qed.

Lemma earliestRejection_some (T : Type) (ps : list (nat * result T))
    (t : nat) (m : jsstring) :
  earliestRejection ps = Some (t, m) ->
  In (t, Failed m) ps
  /\ forall t' m', In (t', Failed m') ps -> t <= t'.
Proof.
  revert t m. induction ps as [|[t0 [v|m0]] ps IH]; simpl; intros t m H.
  - discriminate.
  - destruct (IH t m H) as [Hin Hmin]. split; [now right|].
    intros t' m' [Heq|Hin']; [discriminate|]. now apply (Hmin t' m').
  - destruct (earliestRejection ps) as [[t1 m1]|] eqn:Hrest.
    + destruct (IH t1 m1 eq_refl) as [Hin Hmin].
      destruct (t1 <? t0) eqn:Hlt; injection H as <- <-.
      * apply Nat.ltb_lt in Hlt. split; [now right|].
        intros t' m' [Heq|Hin']; [injection Heq as <- <-; lia|].
        now apply (Hmin t' m').
      * apply Nat.ltb_ge in Hlt. split; [now left|].
        intros t' m' [Heq|Hin']; [injection Heq as <- <-; lia|].
        specialize (Hmin t' m' Hin'). lia.
    + injection H as <- <-. split; [now left|].
      intros t' m' [Heq|Hin']; [injection Heq as <- <-; lia|].
      exfalso. clear IH. induction ps as [|[t2 [v2|m2]] ps IHps]; simpl in *.
      * exact Hin'.
      * destruct Hin' as [Heq|Hin']; [discriminate|]. now apply IHps.
      * destruct (earliestRejection ps) as [[t3 m3]|]; [|discriminate].
        destruct (t3 <? t2); discriminate.
Qed.

Section BatchFacts.

Variable E : Engine.
Variable P : Type.
Variable generateContent : Request -> P -> outcome Response * P.
Variable adPromptText : AdCopy -> jsstring -> jsstring -> jsstring.
Variables productImage styleImage logoImage : ImageData.
Variable adCopy : AdCopy.
Variable aspectRatio : jsstring.
Variable worlds : nat -> P.

Local Abbreviation directionCall :=
  (directionCall E generateContent adPromptText productImage styleImage
     logoImage adCopy aspectRatio worlds).

Lemma adPromises_three (settles : nat -> nat) :
  adPromises E generateContent adPromptText productImage styleImage logoImage
    adCopy aspectRatio worlds settles
  = [ (settles 0, directionCall 0);
      (settles 1, directionCall 1);
      (settles 2, directionCall 2) ].
Proof. reflexivity. Qed.

Lemma three_cases (k : nat) : k < 3 -> k = 0 \/ k = 1 \/ k = 2.
Proof. lia. Qed.

(** C1.  There are 3 creative directions.  If the three calls resolve,
    [generateAds] resolves with their three outputs in the order of the
    directions, whatever the times at which they settle.  If some call is
    rejected, [generateAds] is rejected with the rejection of a call, the
    one that settles first among the rejected ones, and returns no
    results; when a single call is rejected it is the rejection of that
    call. *)
Theorem generateAds_all_or_nothing (settles : nat -> nat) :
  let batch :=
    generateAds E generateContent adPromptText productImage styleImage logoImage
      adCopy aspectRatio worlds settles in
  List.length styleVariations = 3
  /\ (forall a b c,
        directionCall 0 = Resolved a ->
        directionCall 1 = Resolved b ->
        directionCall 2 = Resolved c ->
        batch = Resolved [a; b; c])
  /\ (forall k m,
        k < 3 -> directionCall k = Failed m ->
        exists i m',
          i < 3 /\ directionCall i = Failed m' /\ batch = Failed m'
          /\ forall j m'', j < 3 -> directionCall j = Failed m'' ->
                           settles i <= settles j)
  /\ (forall k m,
        k < 3 -> directionCall k = Failed m ->
        (forall j, j < 3 -> j <> k -> exists v, directionCall j = Resolved v) ->
        batch = Failed m).
Proof.
  cbv zeta. unfold generateAds. rewrite adPromises_three.
  set (ps := [ (settles 0, directionCall 0); (settles 1, directionCall 1);
               (settles 2, directionCall 2) ]).
  assert (Hin : forall j r, j < 3 -> directionCall j = r -> In (settles j, r) ps).
  { intros j r Hj <-. destruct (three_cases Hj) as [-> | [-> | ->]];
      unfold ps; simpl; auto. }
  assert (Hsome : forall k m, k < 3 -> directionCall k = Failed m ->
            exists i m',
              i < 3 /\ directionCall i = Failed m' /\ Promise_all ps = Failed m'
              /\ forall j m'', j < 3 -> directionCall j = Failed m'' ->
                               settles i <= settles j).
  { intros k m Hk Hfail. unfold Promise_all.
    destruct (earliestRejection ps) as [[t m']|] eqn:Hearly.
    - destruct (earliestRejection_some _ Hearly) as [Hmem Hmin].
      assert (Hidx : exists i, i < 3 /\ settles i = t /\ directionCall i = Failed m').
      { unfold ps in Hmem. simpl in Hmem.
        destruct Hmem as [H|[H|[H|[]]]]; injection H as Ht Hr;
          [exists 0|exists 1|exists 2]; repeat split; trivial; lia. }
      destruct Hidx as (i & Hi & Hti & Hri).
      exists i, m'. repeat split; trivial.
      intros j m'' Hj Hfj. rewrite Hti. apply (Hmin _ m''). now apply Hin.
    - apply earliestRejection_none in Hearly.
      pose proof (Hin k _ Hk Hfail) as Hmem.
      apply (in_map snd) in Hmem. rewrite Hearly in Hmem. simpl in Hmem.
      apply in_map_iff in Hmem as (v & Hv & _). discriminate. }
  split; [reflexivity|split; [|split]].
  - intros a b c Ha Hb Hc. unfold ps. rewrite Ha, Hb, Hc. reflexivity.
  - exact Hsome.
  - intros k m Hk Hfail Hothers.
    destruct (Hsome k m Hk Hfail) as (i & m' & Hi & Hri & Hall & _).
    destruct (Nat.eq_dec i k) as [->|Hne].
    + rewrite Hfail in Hri. injection Hri as <-. exact Hall.
    + destruct (Hothers i Hi Hne) as [v Hv]. congruence.
Qed.

End BatchFacts.

(** ** The data-URL check of [editAd] *)

(** C10.  A base image that does not have the shape
    [data:image/<subtype>;base64,<payload>] makes [editAd] fail at once with
    the message Invalid base image data URL format.  The provider world
    comes back as it was given: no provider call was made and the retry
    wrapper was not entered, also when the provider counts its calls. *)
Theorem editAd_rejects_malformed_url
    (E : Engine) (P : Type)
    (generateContent : Request -> P -> outcome Response * P)
    (editPromptText : jsstring -> jsstring)
    (baseImage prompt : jsstring) (w : P) :
  ~ dataUrlShape baseImage ->
  editAd E generateContent editPromptText baseImage prompt w
  = (Failed (cu "Invalid base image data URL format."), w)
  /\ editAd E (fun request => counted (generateContent request)) editPromptText
       baseImage prompt (w, 0)
     = (Failed (cu "Invalid base image data URL format."), (w, 0)).
Proof.
  intros Hshape. unfold editAd.
  destruct (matchDataUrl baseImage) as [[mime payload]|] eqn:Hmatch.
  - exfalso. apply Hshape. exact (matchDataUrl_shape _ Hmatch).
  - split; reflexivity.
Qed.

(** ** The result array *)

Import App.

Lemma arrayGet_arraySet_eq (a : list slot) (i : nat) (v : slot) :
  arrayGet (arraySet a i v) i = v.
Proof.
  revert a; induction i as [|i IH]; intros [|x a]; simpl; try reflexivity.
  - apply (IH []).
  - apply (IH a).
Qed.

Lemma arrayGet_nil (j : nat) : arrayGet [] j = None.
Proof. now destruct j. Qed.

Lemma arrayGet_cons (x : slot) (a : list slot) (j : nat) :
  arrayGet (x :: a) (S j) = arrayGet a j.
Proof. reflexivity. Qed.

Lemma arrayGet_arraySet_ne (a : list slot) (i j : nat) (v : slot) :
  j <> i -> arrayGet (arraySet a i v) j = arrayGet a j.
Proof.
  revert a j; induction i as [|i IH]; intros [|x a] [|j] Hne; simpl;
    try reflexivity; try congruence; rewrite ?arrayGet_cons.
  - now rewrite !arrayGet_nil.
  - rewrite IH by congruence. now rewrite !arrayGet_nil.
  - apply IH. congruence.
Qed.

(** ** Regeneration *)

Section RegenerationFacts.

Variable E : Engine.
Variable P : Type.
Variable generateContent : Request -> P -> outcome Response * P.
Variable editPromptText : jsstring -> jsstring.
Variable adPromptText : AdCopy -> jsstring -> jsstring -> jsstring.

(** C4.  While a regeneration is in progress for some index [i], a
    request to regenerate any index [j] does nothing: the handler returns
    at its guard, the page (with every slot of the result array) is as it
    was, and no operation is added to the ones in flight. *)
Theorem regenerate_rejected_while_regenerating
    (sys : System) (i j : nat) :
  regeneratingIndex (page sys) = Some i ->
  handleRegenerateAd_start j (page sys) = (page sys, None)
  /\ launch (handleRegenerateAd_start j (page sys)) sys = sys
  /\ step E generateContent editPromptText adPromptText (ClickRegenerate j) sys = sys.
Proof.
  intros Hregen.
  assert (Hstart : handleRegenerateAd_start j (page sys) = (page sys, None)).
  { unfold handleRegenerateAd_start. rewrite Hregen.
    destruct (isGeneratingAds (page sys)); reflexivity. }
  split; [exact Hstart|]. split.
  - rewrite Hstart. now destruct sys.
  - unfold step, enabled. rewrite Hregen. simpl.
    now rewrite !andb_false_r.
Qed.

Lemma styleVariations_in_range (target : nat) :
  target < List.length styleVariations ->
  exists c direction, nth_error styleVariations target = Some (c :: direction).
Proof.
  intros H. change (List.length styleVariations) with 3 in H.
  destruct target as [|[|[|target]]]; [| | |lia];
    unfold styleVariations, nth_error;
    match goal with
    | |- exists c direction, Some ?s = _ =>
        exists (hd 0%N s), (tl s); reflexivity
    end.
Qed.

(** C5.  A regeneration of an in-range slot [target] that passes the
    guard marks [target] as regenerating and awaits [generateSingleAd] for
    direction [target].  When that call settles the marker is cleared in
    both outcomes.  If it resolved, slot [target] holds the new result and
    every other slot, like the error, is what it was; if it was rejected,
    the result array is what it was and the error is the message of the
    rejection, which [handleGeminiError] produced. *)
Theorem regeneration_outcomes
    (st : State) (target : nat) (w : P) (image style logo : ImageData) :
  target < List.length styleVariations ->
  isGeneratingAds st = false ->
  regeneratingIndex st = None ->
  imageForAd st = Some image ->
  styleImage st = Some style ->
  logoImage st = Some logo ->
  exists direction,
    nth_error styleVariations target = Some direction
    /\ handleRegenerateAd_start target st
       = (setError None (setRegeneratingIndex (Some target) st),
          Some (AwaitGenerateSingleAd target image style logo (finalAdCopy st)
                  direction (aspectRatio st)))
    /\ let r := fst (generateSingleAd E generateContent adPromptText image style
                       logo (finalAdCopy st) direction (aspectRatio st) w) in
       handleRegenerateAd E generateContent adPromptText target w st
       = handleRegenerateAd_resume target r
           (setError None (setRegeneratingIndex (Some target) st))
       /\ forall now : State,
            let final := handleRegenerateAd_resume target r now in
            regeneratingIndex final = None
            /\ match r with
               | Resolved newAd =>
                   arrayGet (generatedAds final) target = Some newAd
                   /\ (forall j, j <> target ->
                         arrayGet (generatedAds final) j = arrayGet (generatedAds now) j)
                   /\ error final = error now
               | Failed message =>
                   generatedAds final = generatedAds now
                   /\ error final = Some message
                   /\ exists e context, message = handleGeminiError E e context
               end.
Proof.
  intros Hrange Hgen Hregen Himage Hstyle Hlogo.
  destruct (styleVariations_in_range Hrange) as (c & direction & Hdir).
  exists (c :: direction).
  assert (Hstart : handleRegenerateAd_start target st
            = (setError None (setRegeneratingIndex (Some target) st),
               Some (AwaitGenerateSingleAd target image style logo (finalAdCopy st)
                       (c :: direction) (aspectRatio st)))).
  { unfold handleRegenerateAd_start.
    rewrite Hgen, Hregen, Himage, Hstyle, Hlogo, Hdir. reflexivity. }
  split; [exact Hdir|]. split; [exact Hstart|].
  cbv zeta. split.
  - unfold handleRegenerateAd. now rewrite Hstart.
  - intros now. split; [reflexivity|].
    destruct (fst (generateSingleAd E generateContent adPromptText image style logo
                     (finalAdCopy st) (c :: direction) (aspectRatio st) w))
      as [newAd|message] eqn:Hcall; simpl.
    + split; [apply arrayGet_arraySet_eq|]. split; [|reflexivity].
      intros j Hj. now apply arrayGet_arraySet_ne.
    + split; [reflexivity|]. split; [reflexivity|].
      unfold generateSingleAd in Hcall.
      apply withRetries_failed_classified in Hcall as [e He]. eauto.
Qed.

End RegenerationFacts.

(** ** The edit session *)

Section EditFacts.

Variable E : Engine.
Variable P : Type.
Variable generateContent : Request -> P -> outcome Response * P.
Variable editPromptText : jsstring -> jsstring.
Variable adPromptText : AdCopy -> jsstring -> jsstring -> jsstring.

Local Abbreviation applyEdit := (handleApplyEdit E generateContent editPromptText).
Local Abbreviation editCall := (editAd E generateContent editPromptText).

(** One apply that succeeds, on a session whose live value is [base]. *)
Lemma handleApplyEdit_success
    (st : State) (session : EditSession) (base newAd : jsstring) (w : P) :
  editingAd st = Some session ->
  nonEmpty (trim (editPrompt st)) = true ->
  lastOf (history session) = Some base ->
  fst (editCall base (editPrompt st) w) = Resolved newAd ->
  applyEdit w st
  = setIsEditing false
      (setEditPrompt []
         (setEditingAd
            (Some {| index := index session;
                     originalData := originalData session;
                     history := history session ++ [Some newAd] |})
            (setGeneratedAds
               (arraySet (generatedAds st) (index session) (Some newAd))
               (setError None (setIsEditing true st))))).
Proof.
  intros Hsession Hprompt Hlast Hcall.
  unfold handleApplyEdit, handleApplyEdit_start.
  rewrite Hsession, Hprompt, Hlast, Hcall.
  unfold handleApplyEdit_resume. simpl. now rewrite Hsession.
Qed.

(** One apply that fails. *)
Lemma handleApplyEdit_failure
    (st : State) (session : EditSession) (base message : jsstring) (w : P) :
  editingAd st = Some session ->
  nonEmpty (trim (editPrompt st)) = true ->
  lastOf (history session) = Some base ->
  fst (editCall base (editPrompt st) w) = Failed message ->
  applyEdit w st
  = setIsEditing false (setError (Some message) (setError None (setIsEditing true st))).
Proof.
  intros Hsession Hprompt Hlast Hcall.
  unfold handleApplyEdit, handleApplyEdit_start.
  rewrite Hsession, Hprompt, Hlast, Hcall. reflexivity.
Qed.

(** C6.  A session opened on a slot whose value is [O] has history [[O]].
    An apply that succeeds with [E1] gives history [[O; E1]]; a second one
    that succeeds with [E2] gives [[O; E1; E2]]; undo gives [[O; E1]];
    revert gives [[O]]; undo on [[O]] changes nothing.  After each step
    the live value is the last entry of the history and the result array
    holds it at the index of the session. *)
Theorem edit_history_walk
    (st : State) (target : nat) (O E1 E2 p1 p2 : jsstring) (w1 w2 : P) :
  arrayGet (generatedAds st) target = Some O ->
  nonEmpty (trim p1) = true ->
  nonEmpty (trim p2) = true ->
  fst (editCall O p1 w1) = Resolved E1 ->
  fst (editCall E1 p2 w2) = Resolved E2 ->
  let s0 := handleSelectAdForEdit target st in
  let s1 := applyEdit w1 (setEditPrompt p1 s0) in
  let s2 := applyEdit w2 (setEditPrompt p2 s1) in
  let s3 := handleUndoEdit s2 in
  let s4 := handleRevertToOriginal s3 in
  let s5 := handleUndoEdit s4 in
  (sessionHistory s0 = Some [Some O]
   /\ liveValue s0 = Some O /\ sharedSlot s0 = Some O)
  /\ (sessionHistory s1 = Some [Some O; Some E1]
      /\ liveValue s1 = Some E1 /\ sharedSlot s1 = Some E1)
  /\ (sessionHistory s2 = Some [Some O; Some E1; Some E2]
      /\ liveValue s2 = Some E2 /\ sharedSlot s2 = Some E2)
  /\ (sessionHistory s3 = Some [Some O; Some E1]
      /\ liveValue s3 = Some E1 /\ sharedSlot s3 = Some E1)
  /\ (sessionHistory s4 = Some [Some O]
      /\ liveValue s4 = Some O /\ sharedSlot s4 = Some O)
  /\ s5 = s4.
Proof.
  intros Hslot Hp1 Hp2 Hcall1 Hcall2. cbv zeta.
  unfold handleSelectAdForEdit. rewrite Hslot.
  erewrite handleApplyEdit_success; [|reflexivity|exact Hp1|reflexivity|exact Hcall1].
  erewrite handleApplyEdit_success; [|reflexivity|exact Hp2|reflexivity|exact Hcall2].
  unfold sessionHistory, liveValue, sharedSlot, handleUndoEdit,
    handleRevertToOriginal; simpl.
  rewrite !arrayGet_arraySet_eq, Hslot.
  repeat split; reflexivity.
Qed.

(** C7.  (1) With a blank prompt the handler returns at its guard, and a
    click on Apply changes nothing and starts nothing.  (2) While an edit
    is in flight the Apply button is disabled: a click changes nothing and
    starts nothing.  (3) When the edit call fails, the session with its
    history, the result array and the prompt are what they were, the error
    is the message of the failure and no edit is marked in flight.  (4)
    When it succeeds the prompt is cleared. *)
Theorem apply_edit_guards_and_failure (sys : System) (w : P) :
  let st := page sys in
  let click := step E generateContent editPromptText adPromptText ClickApply in
  (nonEmpty (trim (editPrompt st)) = false ->
     handleApplyEdit_start E st = (st, None) /\ click sys = sys)
  /\ (isEditing st = true -> click sys = sys)
  /\ (forall session base message,
        editingAd st = Some session ->
        nonEmpty (trim (editPrompt st)) = true ->
        lastOf (history session) = Some base ->
        fst (editCall base (editPrompt st) w) = Failed message ->
        let st' := applyEdit w st in
        editingAd st' = editingAd st
        /\ generatedAds st' = generatedAds st
        /\ error st' = Some message
        /\ editPrompt st' = editPrompt st
        /\ isEditing st' = false)
  /\ (forall session base newAd,
        editingAd st = Some session ->
        nonEmpty (trim (editPrompt st)) = true ->
        lastOf (history session) = Some base ->
        fst (editCall base (editPrompt st) w) = Resolved newAd ->
        editPrompt (applyEdit w st) = []).
Proof.
  cbv zeta. split; [|split; [|split]].
  - intros Hblank.
    assert (Hstart : handleApplyEdit_start E (page sys) = (page sys, None)).
    { unfold handleApplyEdit_start. rewrite Hblank.
      now destruct (editingAd (page sys)). }
    split; [exact Hstart|].
    unfold step. destruct (enabled ClickApply (page sys)); [|reflexivity].
    rewrite Hstart. now destruct sys.
  - intros Hbusy. unfold step, enabled. rewrite Hbusy.
    now rewrite orb_true_r, andb_false_r.
  - intros session base message Hsession Hprompt Hlast Hcall.
    rewrite (handleApplyEdit_failure _ _ Hsession Hprompt Hlast Hcall).
    repeat split; reflexivity.
  - intros session base newAd Hsession Hprompt Hlast Hcall.
    now rewrite (handleApplyEdit_success _ _ Hsession Hprompt Hlast Hcall).
Qed.

End EditFacts.

(** ** The busy flags *)

Section BusyFlags.

Variable E : Engine.
Variable P : Type.
Variable generateContent : Request -> P -> outcome Response * P.
Variable editPromptText : jsstring -> jsstring.
Variable adPromptText : AdCopy -> jsstring -> jsstring -> jsstring.

Local Abbreviation runPage := (run E generateContent editPromptText adPromptText).
Local Abbreviation clicksAllowed :=
  (allEnabled E generateContent editPromptText adPromptText).

Local Abbreviation overlapClicks := (overlapClicks P).
Local Abbreviation batchDuringEditClicks := (batchDuringEditClicks P).

(** C3, evaluated.  From a page with three results, each click of
    [overlapClicks] is on a control that is shown and enabled, and after
    them an edit apply and a regeneration are both in flight: [isEditing]
    is set, [regeneratingIndex] is 1, and two provider calls are
    outstanding.  [handleRegenerateAd] and the Regenerate button test
    [isGeneratingAds] and [regeneratingIndex] only.  Likewise Generate
    starts a batch, and empties the result array, while the edit is in
    flight. *)
Theorem edit_and_regeneration_overlap :
  (clicksAllowed overlapClicks readySystem = true
   /\ isEditing (page (runPage overlapClicks readySystem)) = true
   /\ regeneratingIndex (page (runPage overlapClicks readySystem)) = Some 1
   /\ inflight (runPage overlapClicks readySystem)
      = [ AwaitEditAd [Some adA; Some adB; Some adC] 0 adA (cu "brighter");
          AwaitGenerateSingleAd 1 sampleImage sampleImage sampleImage emptyCopy
            (nth 1 styleVariations []) (cu "1:1") ])
  /\ (clicksAllowed batchDuringEditClicks readySystem = true
      /\ isEditing (page (runPage batchDuringEditClicks readySystem)) = true
      /\ isGeneratingAds (page (runPage batchDuringEditClicks readySystem)) = true
      /\ generatedAds (page (runPage batchDuringEditClicks readySystem)) = []
      /\ inflight (runPage batchDuringEditClicks readySystem)
         = [ AwaitEditAd [Some adA; Some adB; Some adC] 0 adA (cu "brighter");
             AwaitGenerateAds sampleImage sampleImage sampleImage emptyCopy
               (cu "1:1") ]).
Proof.
  repeat split; vm_compute; reflexivity.
Qed.

End BusyFlags.

(** What the overlap costs: the regeneration of slot 1 settles first and
    writes its result; the edit of slot 0 then settles and writes back the
    array its closure captured at the click, so the regenerated slot 1 is
    lost. *)
Lemma overlap_loses_regenerated_slot :
  let runPage := run plainEngine scripted noPromptText noAdPromptText in
  let regenSettles := Settle 1 (fun _ => answering (cu "RRRR")) (fun _ => 0) in
  let editSettles := Settle 0 (fun _ => answering (cu "EEEE")) (fun _ => 0) in
  generatedAds (page (runPage (overlapClicks _ ++ [regenSettles]) readySystem))
  = [Some adA; Some adR; Some adC]
  /\ generatedAds
       (page (runPage (overlapClicks _ ++ [regenSettles; editSettles]) readySystem))
     = [Some adE; Some adB; Some adC].
Proof.
  split; vm_compute; reflexivity.
Qed.

(** ** The statements at sample inputs *)

(** An operation that throws once and then returns 7, and one that throws
    three times. *)
Lemma withRetries_attempts_sample :
  withRetries plainEngine (counted (@replay nat)) (cu "sample")
    ([Threw (JsError (cu "boom")); Returned 7], 0)
  = (Resolved 7, ([], 2))
  /\ withRetries plainEngine (counted (@replay nat)) (cu "sample")
       ([Threw NotAnError; Threw NotAnError; Threw (JsError (cu "boom"))], 0)
     = (Failed (transportMessage (cu "boom")), ([], 3)).
Proof.
  split.
  - apply (proj1 (proj2 (withRetries_attempts plainEngine (@replay nat) (cu "sample")
                           [Threw (JsError (cu "boom")); Returned 7])) 2 7).
    + unfold MAX_RETRIES. lia.
    + intros j Hj. assert (j = 0) as -> by lia. eexists. reflexivity.
    + reflexivity.
  - apply (proj2 (proj2 (withRetries_attempts plainEngine (@replay nat) (cu "sample")
                           [Threw NotAnError; Threw NotAnError;
                            Threw (JsError (cu "boom"))]))
             (JsError (cu "boom"))).
    + intros j Hj. unfold MAX_RETRIES in Hj.
      assert (j = 0 \/ j = 1) as [-> | ->] by lia; eexists; reflexivity.
    + reflexivity.
Defined.

(** A batch in which direction 2 settles first: the results come in the
    order of the directions.  A batch in which direction 1 fails: the batch
    fails with its failure. *)
Lemma generateAds_all_or_nothing_sample :
  generateAds plainEngine scripted noAdPromptText sampleImage sampleImage
    sampleImage App.emptyCopy (cu "1:1") sampleWorlds lastFirst
  = Resolved [ cu "data:image/png;base64,AD0"; cu "data:image/png;base64,AD1";
               cu "data:image/png;base64,AD2" ]
  /\ generateAds plainEngine scripted noAdPromptText sampleImage sampleImage
       sampleImage App.emptyCopy (cu "1:1") failingSecond lastFirst
     = Failed (transportMessage (cu "fetch failed")).
Proof.
  split.
  - apply (proj1 (proj2 (generateAds_all_or_nothing plainEngine scripted
                           noAdPromptText sampleImage sampleImage sampleImage
                           App.emptyCopy (cu "1:1") sampleWorlds lastFirst)));
      vm_compute; reflexivity.
  - apply (proj2 (proj2 (proj2 (generateAds_all_or_nothing plainEngine scripted
                                  noAdPromptText sampleImage sampleImage sampleImage
                                  App.emptyCopy (cu "1:1") failingSecond lastFirst)))
             1).
    + lia.
    + vm_compute. reflexivity.
    + intros j Hj Hne.
      assert (j = 0 \/ j = 2) as [-> | ->] by lia; eexists; vm_compute; reflexivity.
Defined.

(** A message that wraps the quota payload. *)
Lemma quota_payload_classified_sample :
  let message := cu "ApiError: " ++ quotaPayload ++ cu " (429)" in
  fst (withRetries plainEngine
         (fun w : unit => (@Threw unit (JsError message), w)) (cu "ad generation") tt)
  = Failed quotaMessage.
Proof.
  cbv zeta.
  apply (@quota_payload_classified plainEngine unit unit
           (fun w : unit => (@Threw unit (JsError (cu "ApiError: " ++ quotaPayload ++ cu " (429)")), w))
           (cu "ad generation") tt (cu "ApiError: ") (cu " (429)")).
  - vm_compute. reflexivity.
  - vm_compute. reflexivity.
  - intros j Hj. reflexivity.
Defined.

(** A payload with the status INVALID_ARGUMENT and a message that mentions
    Safety. *)
Lemma safety_payload_classified_sample :
  fst (withRetries plainEngine
         (fun w : unit => (@Threw unit (JsError safetyPayload), w))
         (cu "ad generation") tt)
  = Failed policyMessage.
Proof.
  apply (@safety_payload_classified plainEngine unit unit
           (fun w : unit => (@Threw unit (JsError safetyPayload), w))
           (cu "ad generation") tt
           safetyPayload safetyPayload
           (JObject
                        [(cu "error",
                          JObject [(cu "code", JNumber (cu "400"));
                                   (cu "status", JString (cu "INVALID_ARGUMENT"));
                                   (cu "message", JString (cu "Blocked by Safety filters"))])])
           (Val (JObject
                                  [(cu "code", JNumber (cu "400"));
                                   (cu "status", JString (cu "INVALID_ARGUMENT"));
                                   (cu "message", JString (cu "Blocked by Safety filters"))]))
           (Val (JString (cu "INVALID_ARGUMENT")))
           (cu "Blocked by ") (cu "Safety") (cu " filters")).
  - intros j Hj. reflexivity.
  - vm_compute. reflexivity.
  - vm_compute. reflexivity.
  - vm_compute. reflexivity.
  - vm_compute. reflexivity.
  - vm_compute. reflexivity.
  - vm_compute. reflexivity.
  - vm_compute. reflexivity.
Defined.

(** A web address as base image. *)
Lemma editAd_rejects_malformed_url_sample :
  editAd plainEngine (fun request => counted (scripted request)) noPromptText
    (cu "https://example.com/ad.png") (cu "brighter") (answering (cu "EEEE"), 0)
  = (Failed (cu "Invalid base image data URL format."), (answering (cu "EEEE"), 0)).
Proof.
  refine (proj2 (editAd_rejects_malformed_url plainEngine scripted noPromptText
                   (baseImage := cu "https://example.com/ad.png") (cu "brighter")
                   (answering (cu "EEEE")) _)).
  intros (subtype & payload & _ & _ & Heq). simpl in Heq. discriminate.
Defined.

(** While slot 0 is being regenerated a click for slot 2 leaves the system
    as it is. *)
Lemma regenerate_rejected_sample :
  regeneratingIndex (page regeneratingSystem) = Some 0
  /\ step plainEngine scripted noPromptText noAdPromptText (ClickRegenerate 2)
       regeneratingSystem
     = regeneratingSystem.
Proof.
  split.
  - reflexivity.
  - apply (@regenerate_rejected_while_regenerating plainEngine _ scripted
             noPromptText noAdPromptText regeneratingSystem 0 2).
    reflexivity.
Defined.

(** Regeneration of slot 1 of the sample page, with a provider that returns
    a new image. *)
Lemma regeneration_outcomes_sample :
  let final :=
    handleRegenerateAd plainEngine scripted noAdPromptText 1
      (answering (cu "RRRR")) readyPage in
  regeneratingIndex final = None
  /\ arrayGet (generatedAds final) 1 = Some adR
  /\ arrayGet (generatedAds final) 0 = Some adA
  /\ arrayGet (generatedAds final) 2 = Some adC.
Proof.
  cbv zeta.
  destruct (@regeneration_outcomes plainEngine _ scripted noAdPromptText readyPage 1
              (answering (cu "RRRR")) sampleImage sampleImage sampleImage)
    as (direction & Hdir & _ & Hrun & Hall).
  - vm_compute. lia.
  - reflexivity.
  - reflexivity.
  - reflexivity.
  - reflexivity.
  - reflexivity.
  - rewrite Hrun. simpl in Hdir. injection Hdir as <-.
    specialize (Hall (setError None (setRegeneratingIndex (Some 1) readyPage))).
    cbv zeta in Hall. destruct Hall as [Hidle Hcase].
    split; [exact Hidle|].
    match type of Hcase with
    | match ?r with _ => _ end => destruct r as [newAd|message] eqn:Hcall
    end.
    + vm_compute in Hcall. injection Hcall as <-.
      destruct Hcase as (Hnew & Hothers & _).
      split; [exact Hnew|]. split.
      * rewrite Hothers by lia. reflexivity.
      * rewrite Hothers by lia. reflexivity.
    + vm_compute in Hcall. discriminate.
Defined.

(** Two edits, an undo and a revert on slot 0 of the sample page. *)
Lemma edit_history_walk_sample :
  let apply w := handleApplyEdit plainEngine scripted noPromptText w in
  let s1 := apply (answering (cu "EEEE"))
              (setEditPrompt (cu "brighter") (handleSelectAdForEdit 0 readyPage)) in
  let s2 := apply (answering (cu "FFFF")) (setEditPrompt (cu "warmer") s1) in
  sessionHistory s2 = Some [Some adA; Some adE; Some adF]
  /\ sharedSlot (handleUndoEdit s2) = Some adE
  /\ sessionHistory (handleRevertToOriginal (handleUndoEdit s2)) = Some [Some adA].
Proof.
  cbv zeta.
  destruct (@edit_history_walk plainEngine _ scripted noPromptText readyPage 0
              adA adE adF (cu "brighter") (cu "warmer")
              (answering (cu "EEEE")) (answering (cu "FFFF")))
    as (_ & _ & (H2 & _) & (_ & _ & H3) & (H4 & _) & _).
  - reflexivity.
  - vm_compute. reflexivity.
  - vm_compute. reflexivity.
  - vm_compute. reflexivity.
  - vm_compute. reflexivity.
  - split; [exact H2|]. split; [exact H3|exact H4].
Defined.

(** Apply with a blank prompt, with an edit already in flight, with a
    provider that fails every call, and with one that answers. *)
Lemma apply_edit_guards_sample :
  let click := step plainEngine scripted noPromptText noAdPromptText ClickApply in
  let apply w := handleApplyEdit plainEngine scripted noPromptText w in
  click (editingSystem (cu "   ")) = editingSystem (cu "   ")
  /\ click applyingSystem = applyingSystem
  /\ (let st' := apply [] (editingPage (cu "brighter")) in
      sessionHistory st' = Some [Some adA]
      /\ generatedAds st' = [Some adA; Some adB; Some adC]
      /\ error st' = Some (transportMessage (cu "fetch failed"))
      /\ editPrompt st' = cu "brighter")
  /\ editPrompt (apply (answering (cu "EEEE")) (editingPage (cu "brighter"))) = [].
Proof.
  cbv zeta. split; [|split; [|split]].
  - apply (proj1 (@apply_edit_guards_and_failure plainEngine _ scripted noPromptText
                    noAdPromptText (editingSystem (cu "   ")) [])).
    vm_compute. reflexivity.
  - apply (proj1 (proj2 (@apply_edit_guards_and_failure plainEngine _ scripted
                           noPromptText noAdPromptText applyingSystem []))).
    reflexivity.
  - destruct (proj1 (proj2 (proj2 (@apply_edit_guards_and_failure plainEngine _
                                     scripted noPromptText noAdPromptText
                                     (editingSystem (cu "brighter")) [])))
                {| index := 0; originalData := Some adA; history := [Some adA] |}
                adA (transportMessage (cu "fetch failed")))
      as (Hsession & Hads & Herror & Hprompt & _).
    + reflexivity.
    + vm_compute. reflexivity.
    + reflexivity.
    + vm_compute. reflexivity.
    + unfold sessionHistory. simpl page in *. rewrite Hsession, Hads, Herror, Hprompt.
      repeat split; reflexivity.
  - apply (proj2 (proj2 (proj2 (@apply_edit_guards_and_failure plainEngine _
                                  scripted noPromptText noAdPromptText
                                  (editingSystem (cu "brighter"))
                                  (answering (cu "EEEE")))))
             {| index := 0; originalData := Some adA; history := [Some adA] |}
             adA adE).
    + reflexivity.
    + vm_compute. reflexivity.
    + reflexivity.
    + vm_compute. reflexivity.
Defined.

(** ** Further facts: the classifier *)

Section ClassifierMore.

Variable E : Engine.
Variable context : jsstring.

Lemma matchBraces_none_closing (s : jsstring) :
  lacks 125 s = true -> matchBraces s = None.
Proof.
  induction s as [|c s IH]; simpl; [reflexivity|].
  intros H. apply andb_true_iff in H as [_ Hs].
  rewrite (dotStarRBrace_none _ Hs), (IH Hs). now destruct (c =? 123)%N.
Qed.

Lemma classifyParsed_shapes (parsed : json) (m : jsstring) :
  classifyParsed E parsed = Some m ->
  m = defaultMessage \/ m = quotaMessage \/ m = policyMessage
  \/ exists code keyMessage, m = providerMessage code keyMessage.
Proof.
  unfold classifyParsed.
  destruct (prop (Val parsed) (cu "error")) as [parsedError|]; [|discriminate].
  destruct (truthy E parsedError); [|intros H; injection H as <-; auto].
  destruct (prop parsedError (cu "message")) as [keyMessage|]; [|discriminate].
  destruct (truthy E keyMessage); [|intros H; injection H as <-; auto].
  destruct (prop parsedError (cu "status")) as [status|]; [|discriminate].
  destruct (strictEqualsString _ _); [intros H; injection H as <-; auto|].
  destruct keyMessage as [|[ | | |text| | ]]; try discriminate.
  destruct (includes (cu "safety") (toLowerCase text));
    [intros H; injection H as <-; auto|].
  destruct (toStringVal E _) as [code|]; [|discriminate].
  intros H; injection H as <-. right; right; right. eauto.
Qed.

Lemma handleGeminiError_shapes (error : thrown) :
  let m := handleGeminiError E error context in
  m = defaultMessage \/ m = quotaMessage \/ m = policyMessage
  \/ (exists code keyMessage, m = providerMessage code keyMessage)
  \/ (exists rawMessage, error = JsError rawMessage /\ m = transportMessage rawMessage).
Proof.
  cbv zeta. destruct error as [rawMessage|]; simpl; [|auto].
  destruct (matchBraces rawMessage) as [span|]; [|right; right; right; right; eauto].
  destruct (parse span) as [parsed|]; [|auto].
  destruct (classifyParsed E parsed) as [m|] eqn:Hm; [|auto].
  destruct (classifyParsed_shapes _ Hm) as [H|[H|[H|H]]]; auto.
Qed.

Lemma apology_provider (code keyMessage : jsstring) :
  startsWith apology (providerMessage code keyMessage) = true.
Proof.
  unfold providerMessage.
  change (cu "We have encountered problems in generating your assets. Error Code: ")
    with (apology ++ cu ". Error Code: ").
  rewrite <- app_assoc. apply startsWith_app.
Qed.

Lemma apology_transport (rawMessage : jsstring) :
  startsWith apology (transportMessage rawMessage) = true.
Proof.
  unfold transportMessage.
  change (cu "We have encountered problems in generating your assets: ")
    with (apology ++ cu ": ").
  rewrite <- app_assoc. apply startsWith_app.
Qed.

Lemma handleGeminiError_apology (error : thrown) :
  startsWith apology (handleGeminiError E error context) = true.
Proof.
  destruct (handleGeminiError_shapes error)
    as [H|[H|[H|[(code & km & H)|(raw & _ & H)]]]]; rewrite H.
  - vm_compute. reflexivity.
  - vm_compute. reflexivity.
  - vm_compute. reflexivity.
  - apply apology_provider.
  - apply apology_transport.
Qed.

(** X1.  Whatever was thrown, [handleGeminiError] produces one of five
    messages: the generic fallback, the quota message, the policy message,
    a provider message made of a code and a text, or the transport message
    made of the raw text of the error; and every one of them starts with
    the same words. *)
Theorem handleGeminiError_one_of_five (error : thrown) :
  let m := handleGeminiError E error context in
  (m = defaultMessage \/ m = quotaMessage \/ m = policyMessage
   \/ (exists code keyMessage, m = providerMessage code keyMessage)
   \/ (exists rawMessage, error = JsError rawMessage /\ m = transportMessage rawMessage))
  /\ startsWith apology m = true.
Proof.
  cbv zeta. split.
  - apply handleGeminiError_shapes.
  - apply handleGeminiError_apology.
Qed.

(** X2.  An error whose message has no opening brace, or no closing
    brace, is reported with its raw text after the fixed words; a thrown
    value that is not an [Error] gets the generic fallback. *)
Theorem handleGeminiError_plain_text (rawMessage : jsstring) :
  lacks 123 rawMessage = true \/ lacks 125 rawMessage = true ->
  handleGeminiError E (JsError rawMessage) context
  = cu "We have encountered problems in generating your assets: " ++ rawMessage
  /\ handleGeminiError E NotAnError context = defaultMessage.
Proof.
  intros H. split; [|reflexivity].
  unfold handleGeminiError.
  destruct H as [H|H];
    [rewrite (matchBraces_none _ H)|rewrite (matchBraces_none_closing _ H)];
    reflexivity.
Qed.

(** X3.  A payload whose [error.message] is a non-empty string without
    safety in it, and whose [error.status] is not RESOURCE_EXHAUSTED, gives
    the provider message with that text; the code in it is the status when
    the status is a non-empty string, and N/A when the status is missing,
    empty, [null], [false] or zero. *)
Theorem handleGeminiError_provider_message
    (rawMessage span : jsstring) (parsed : json) (parsedError status : jsval)
    (text : jsstring) :
  matchBraces rawMessage = Some span ->
  parse span = Some parsed ->
  prop (Val parsed) (cu "error") = Some parsedError ->
  prop parsedError (cu "message") = Some (Val (JString text)) ->
  text <> [] ->
  includes (cu "safety") (toLowerCase text) = false ->
  prop parsedError (cu "status") = Some status ->
  (forall code, status = Val (JString code) -> code <> [] ->
     code <> cu "RESOURCE_EXHAUSTED" ->
     handleGeminiError E (JsError rawMessage) context = providerMessage code text)
  /\ (truthy E status = false ->
      handleGeminiError E (JsError rawMessage) context
      = providerMessage (cu "N/A") text).
Proof.
  intros Hspan Hparse Herror Hmessage Htext Hsafety Hstatus.
  assert (Hne : truthy E (Val (JString text)) = true)
    by (destruct text; [congruence|reflexivity]).
  unfold handleGeminiError, classifyParsed.
  rewrite Hspan, Hparse, Herror, (prop_found_truthy E _ _ Hmessage), Hmessage,
    Hne, Hstatus.
  split.
  - intros code -> Hcode Hother.
    assert (Htruthy : truthy E (Val (JString code)) = true)
      by (destruct code; [congruence|reflexivity]).
    rewrite Htruthy. simpl.
    destruct (eqb code (cu "RESOURCE_EXHAUSTED")) eqn:Heq.
    + apply eqb_eq in Heq. congruence.
    + now rewrite Hsafety.
  - intros Hfalsy. rewrite Hfalsy. simpl. now rewrite Hsafety.
Qed.

(** X4.  When the brace span of the message is not JSON, or is JSON
    without an [error] member, or its [error] has no [message] member, the
    message is the generic fallback. *)
Theorem handleGeminiError_fallback (rawMessage span : jsstring) :
  matchBraces rawMessage = Some span ->
  (parse span = None
   \/ (exists parsed, parse span = Some parsed
                      /\ prop (Val parsed) (cu "error") = Some Undefined)
   \/ (exists parsed parsedError,
         parse span = Some parsed
         /\ prop (Val parsed) (cu "error") = Some parsedError
         /\ prop parsedError (cu "message") = Some Undefined)) ->
  handleGeminiError E (JsError rawMessage) context = defaultMessage.
Proof.
  intros Hspan H. unfold handleGeminiError. rewrite Hspan.
  destruct H as [H|[(parsed & H & Herror)|(parsed & parsedError & H & Herror & Hmessage)]];
    rewrite H; [reflexivity| |]; unfold classifyParsed; rewrite Herror.
  - reflexivity.
  - destruct (truthy E parsedError); [|reflexivity].
    rewrite Hmessage. reflexivity.
Qed.

End ClassifierMore.

(** ** Further facts: the retry wrapper and the service calls *)

Section RetryMore.

Variable E : Engine.
Variables P T : Type.
Variable apiCall : P -> outcome T * P.
Variable context : jsstring.

(** A value [withRetries] resolves with was returned by an invocation. *)
Lemma withRetries_resolved_returned (w : P) (v : T) :
  fst (withRetries E apiCall context w) = Resolved v ->
  exists w', fst (apiCall w') = Returned v.
Proof.
  unfold withRetries, MAX_RETRIES. simpl.
  destruct (apiCall w) as [[v0|e0] w0] eqn:H0; simpl.
  - intros H; injection H as <-. exists w. now rewrite H0.
  - destruct (apiCall w0) as [[v1|e1] w1] eqn:H1; simpl.
    + intros H; injection H as <-. exists w0. now rewrite H1.
    + destruct (apiCall w1) as [[v2|e2] w2] eqn:H2; simpl.
      * intros H; injection H as <-. exists w1. now rewrite H2.
      * discriminate.
Qed.

(** The loop sees an operation only through what it yields. *)
Lemma retryLoop_ext (f g : P -> outcome T * P) :
  (forall w, f w = g w) ->
  forall remaining i w,
    retryLoop E remaining i f context w = retryLoop E remaining i g context w.
Proof.
  intros Hfg remaining. induction remaining as [|r IH]; intros i w; simpl.
  - reflexivity.
  - rewrite Hfg. destruct (g w) as [[v|e] w']; [reflexivity|].
    destruct (i =? 2); [reflexivity|apply IH].
Qed.

Lemma operationFailed_no_apology :
  startsWith apology (operationFailed context) = false.
Proof. reflexivity. Qed.

(** X5.  The [throw] after the loop of [withRetries] is never reached: a
    rejection of [withRetries] is never the Operation failed text of that
    line, and always starts with the fixed words of [handleGeminiError]. *)
Theorem withRetries_trailing_throw_unreachable (w : P) :
  fst (withRetries E apiCall context w) <> Failed (operationFailed context)
  /\ forall m, fst (withRetries E apiCall context w) = Failed m ->
               startsWith apology m = true.
Proof.
  assert (Hall : forall m, fst (withRetries E apiCall context w) = Failed m ->
                           startsWith apology m = true).
  { intros m Hm. apply withRetries_failed_classified in Hm as [e ->].
    apply handleGeminiError_apology. }
  split; [|exact Hall].
  intros Hm. apply Hall in Hm. rewrite operationFailed_no_apology in Hm.
  discriminate.
Qed.

End RetryMore.

Section ImageCalls.

Variable E : Engine.
Variable P : Type.
Variable generateContent : Request -> P -> outcome Response * P.
Variable editPromptText : jsstring -> jsstring.
Variable adPromptText : AdCopy -> jsstring -> jsstring -> jsstring.

Lemma imageCall_counted (request : Request) (missing : jsstring) (w : P) (n : nat) :
  imageCall (fun r => counted (generateContent r)) request missing (w, n)
  = counted (imageCall generateContent request missing) (w, n).
Proof.
  unfold imageCall, counted. simpl.
  destruct (generateContent request w) as [[response|e] w']; simpl; [|reflexivity].
  now destruct (firstInlineData response).
Qed.

Lemma imageCall_no_image (request : Request) (missing : jsstring) :
  neverAnImage generateContent ->
  forall j w, attempt (imageCall generateContent request missing) j w
              = Threw (JsError missing).
Proof.
  intros Hnever j w. unfold attempt, imageCall.
  destruct (Hnever request (worldAfter (imageCall generateContent request missing) j w))
    as (response & Hresp & Hnone).
  destruct (generateContent request _) as [o w']. simpl in Hresp. subst o.
  now rewrite Hnone.
Qed.

(** X6.  When the provider answers every call but never with an image
    part, [generateSingleAd] calls it exactly three times and then fails
    with the transport message that carries the text Model response did
    not contain a valid image part. *)
Theorem generateSingleAd_without_image_part
    (productImage styleImage logoImage : ImageData) (adCopy : AdCopy)
    (creativeDirection aspectRatio : jsstring) (w : P) :
  neverAnImage generateContent ->
  fst (generateSingleAd E generateContent adPromptText productImage styleImage
         logoImage adCopy creativeDirection aspectRatio w)
  = Failed (transportMessage (cu "Model response did not contain a valid image part."))
  /\ snd (snd (generateSingleAd E (fun r => counted (generateContent r)) adPromptText
                 productImage styleImage logoImage adCopy creativeDirection
                 aspectRatio (w, 0)))
     = 3.
Proof.
  intros Hnever. unfold generateSingleAd.
  set (request := {| model := imageModel; contents := _; responseModalities := _ |}).
  set (missing := cu "Model response did not contain a valid image part.").
  pose proof (imageCall_no_image request missing Hnever) as Hthrows.
  split.
  - rewrite (withRetries_everyAttemptThrows E _ (e := JsError missing))
      by (intros j _; apply Hthrows).
    now rewrite handleGeminiError_no_brace.
  - unfold withRetries.
    rewrite (retryLoop_ext E _ _
               (counted (imageCall generateContent request missing))
               (fun wn => imageCall_counted request missing (fst wn) (snd wn))).
    rewrite (@retryLoop_exhausted E _ _ (imageCall generateContent request missing) _
               MAX_RETRIES 0 w 0 (JsError missing)); trivial.
    + unfold MAX_RETRIES. lia.
    + intros j _. eexists. apply Hthrows.
Qed.

End ImageCalls.

(** ** Further facts: data URLs *)

Lemma lacks_app (c : N) (a b : jsstring) :
  lacks c (a ++ b) = lacks c a && lacks c b.
Proof. unfold lacks. apply forallb_app. Qed.

Lemma startsWith_lacks_head (p s : jsstring) (c : N) :
  hd_error p = Some c -> lacks c s = true -> startsWith p s = false.
Proof.
  destruct p as [|x p]; [discriminate|]. intros H; injection H as ->.
  destruct s as [|y s]; [reflexivity|]. simpl.
  intros Hs. apply andb_true_iff in Hs as [Hy _].
  apply negb_true_iff in Hy. now rewrite N.eqb_sym, Hy.
Qed.

(** No split is found in a text without a semicolon. *)
Lemma plusThenBase64_no_semicolon (s : jsstring) :
  lacks 59 s = true -> plusThenBase64 s = None.
Proof.
  induction s as [|c s IH]; [reflexivity|].
  intros H. simpl in H. apply andb_true_iff in H as [_ Hs].
  rewrite plusThenBase64_cons, (IH Hs).
  rewrite (startsWith_lacks_head (cu ";base64,") s (c := 59%N) eq_refl Hs).
  now destruct (isLineTerminator c).
Qed.

(** The greedy [.+] stops at the last [;base64,]: with a payload free of
    semicolons that is the one the template wrote. *)
Lemma plusThenBase64_complete (subtype payload : jsstring) :
  subtype <> [] -> payload <> [] ->
  noLineTerminator subtype = true -> noLineTerminator payload = true ->
  lacks 59 payload = true ->
  plusThenBase64 (subtype ++ cu ";base64," ++ payload) = Some (subtype, payload).
Proof.
  intros Hsub Hpay Hlt Hltp Hsemi.
  assert (Hrest : plusThenBase64 (cu ";base64," ++ payload) = None).
  { change (cu ";base64," ++ payload) with (59%N :: cu "base64," ++ payload).
    rewrite plusThenBase64_cons.
    rewrite plusThenBase64_no_semicolon
      by (rewrite lacks_app, Hsemi; reflexivity).
    rewrite (startsWith_lacks_head (cu ";base64,") (cu "base64," ++ payload)
               (c := 59%N) eq_refl)
      by (rewrite lacks_app, Hsemi; reflexivity).
    reflexivity. }
  induction subtype as [|c subtype IH]; [congruence|].
  simpl in Hlt. apply andb_true_iff in Hlt as [Hc Hlt].
  apply negb_true_iff in Hc.
  change ((c :: subtype) ++ cu ";base64," ++ payload)
    with (c :: (subtype ++ cu ";base64," ++ payload)).
  rewrite plusThenBase64_cons, Hc.
  destruct subtype as [|d subtype].
  - change ([] ++ cu ";base64," ++ payload) with (cu ";base64," ++ payload).
    rewrite Hrest, startsWith_app.
    change (skipn 8 (cu ";base64," ++ payload)) with payload. cbv zeta.
    rewrite Hltp. destruct payload; [congruence|reflexivity].
  - rewrite IH; [reflexivity|discriminate|exact Hlt].
Qed.

Lemma dataUrl_image (subtype payload : jsstring) :
  dataUrl {| blobData := Some payload; blobMimeType := Some (cu "image/" ++ subtype) |}
  = cu "data:image/" ++ subtype ++ cu ";base64," ++ payload.
Proof. reflexivity. Qed.

Section DataUrls.

Variable E : Engine.
Variable P : Type.
Variable generateContent : Request -> P -> outcome Response * P.
Variable editPromptText : jsstring -> jsstring.

(** X7.  The data URL that [generateSingleAd] and [editAd] build from an
    image part is taken apart again by the expression of [editAd] into the
    same MIME type and payload, when the MIME type is image/ followed by a
    subtype and the payload is not empty, both without line terminators,
    and the payload has no semicolon. *)
Theorem matchDataUrl_of_dataUrl (subtype payload : jsstring) :
  subtype <> [] -> payload <> [] ->
  noLineTerminator subtype = true -> noLineTerminator payload = true ->
  lacks 59 payload = true ->
  matchDataUrl (dataUrl {| blobData := Some payload;
                           blobMimeType := Some (cu "image/" ++ subtype) |})
  = Some (cu "image/" ++ subtype, payload).
Proof.
  intros Hsub Hpay Hlt Hltp Hsemi. rewrite dataUrl_image. unfold matchDataUrl.
  rewrite startsWith_app.
  change (skipn 11 (cu "data:image/" ++ subtype ++ cu ";base64," ++ payload))
    with (subtype ++ cu ";base64," ++ payload).
  now rewrite plusThenBase64_complete.
Qed.

(** X8.  An ad built from such an image part can be edited: [editAd]
    accepts it and enters the retry wrapper with a request whose image part
    is the MIME type and payload of the ad and whose text is the edit
    prompt. *)
Theorem editAd_accepts_generated_ad (subtype payload prompt : jsstring) (w : P) :
  subtype <> [] -> payload <> [] ->
  noLineTerminator subtype = true -> noLineTerminator payload = true ->
  lacks 59 payload = true ->
  editAd E generateContent editPromptText
    (dataUrl {| blobData := Some payload;
                blobMimeType := Some (cu "image/" ++ subtype) |})
    prompt w
  = withRetries E
      (imageCall generateContent
         {| model := imageModel;
            contents := [ InlinePart {| data := payload;
                                        mimeType := cu "image/" ++ subtype |};
                          TextPart (editPromptText prompt) ];
            responseModalities := [IMAGE] |}
         (cu "Model response did not contain a valid image part for the edit."))
      (cu "ad editing with prompt: " ++ 34%N :: prompt ++ [34%N])
      w.
Proof.
  intros Hsub Hpay Hlt Hltp Hsemi. rewrite dataUrl_image.
  unfold editAd, matchDataUrl.
  rewrite startsWith_app.
  change (skipn 11 (cu "data:image/" ++ subtype ++ cu ";base64," ++ payload))
    with (subtype ++ cu ";base64," ++ payload).
  now rewrite plusThenBase64_complete.
Qed.

Lemma startsWith_image_before_semicolon (mime rest : jsstring) :
  startsWith (cu "image/") mime = false ->
  startsWith (cu "image/") (mime ++ 59%N :: rest) = false.
Proof.
  intros H.
  destruct mime as [|c0 [|c1 [|c2 [|c3 [|c4 [|c5 mime]]]]]]; simpl in *;
    rewrite ?andb_false_r; try reflexivity; exact H.
Qed.

(** X9.  An ad made from an image part whose MIME type does not start
    with image/ (or is missing, which the template prints as undefined)
    cannot be edited: [editAd] rejects it at once, without a provider
    call. *)
Theorem editAd_rejects_ad_without_image_type (blob : Blob) (prompt : jsstring) (w : P) :
  startsWith (cu "image/") (orUndefined (blobMimeType blob)) = false ->
  editAd E generateContent editPromptText (dataUrl blob) prompt w
  = (Failed (cu "Invalid base image data URL format."), w).
Proof.
  intros Hmime. unfold editAd, matchDataUrl, dataUrl.
  change (cu "data:image/") with (cu "data:" ++ cu "image/").
  assert (Hsw : forall p q s, startsWith (p ++ q) (p ++ s) = startsWith q s).
  { induction p as [|x p IH]; intros q s; simpl; [reflexivity|].
    now rewrite N.eqb_refl, IH. }
  rewrite Hsw.
  change (cu ";base64," ++ orUndefined (blobData blob))
    with (59%N :: cu "base64," ++ orUndefined (blobData blob)).
  now rewrite (startsWith_image_before_semicolon _ _ Hmime).
Qed.

End DataUrls.

(** ** Further facts: uploads and copy suggestions *)

Lemma splitOn_lacks (c : N) (s : jsstring) :
  lacks c s = true -> splitOn c s = [s].
Proof.
  induction s as [|d s IH]; simpl; [reflexivity|].
  intros H. apply andb_true_iff in H as [Hd Hs].
  apply negb_true_iff in Hd. now rewrite Hd, (IH Hs).
Qed.

Lemma splitOn_first (c : N) (a b : jsstring) :
  lacks c a = true -> splitOn c (a ++ c :: b) = a :: splitOn c b.
Proof.
  induction a as [|d a IH]; simpl.
  - now rewrite N.eqb_refl.
  - intros H. apply andb_true_iff in H as [Hd Ha].
    apply negb_true_iff in Hd. now rewrite Hd, (IH Ha).
Qed.

(** X10.  For a file read as [data:<type>;base64,<payload>], with no
    comma in the type or in the payload, [fileToBase64] yields the payload
    as [data] and [file.type] as MIME type; when [file.type] is the type of
    the URL, the address [App.tsx] builds from the two is the URL that was
    read.  A result without a comma leaves [data] undefined, and a read
    error rejects. *)
Theorem fileToBase64_round_trip (type payload fileType : jsstring) :
  lacks 44 type = true -> lacks 44 payload = true ->
  let url := cu "data:" ++ type ++ cu ";base64," ++ payload in
  fileToBase64 fileType (Loaded url)
  = Some {| fileData := Some payload; fileMimeType := fileType |}
  /\ (fileType = type ->
      imageHref {| data := payload; mimeType := fileType |} = url)
  /\ (forall plain, lacks 44 plain = true ->
        fileToBase64 fileType (Loaded plain)
        = Some {| fileData := None; fileMimeType := fileType |})
  /\ fileToBase64 fileType ReadError = None.
Proof.
  intros Htype Hpayload. cbv zeta. unfold fileToBase64.
  split; [|split; [intros ->; reflexivity|split; [|reflexivity]]].
  - replace (cu "data:" ++ type ++ cu ";base64," ++ payload)
      with ((cu "data:" ++ type ++ cu ";base64") ++ 44%N :: payload)
      by (rewrite <- !app_assoc; reflexivity).
    rewrite splitOn_first
      by (rewrite !lacks_app, Htype; reflexivity).
    now rewrite (splitOn_lacks _ _ Hpayload).
  - intros plain Hplain. now rewrite (splitOn_lacks _ _ Hplain).
Qed.

Section Suggestions.

Variable E : Engine.
Variable P : Type.
Variable generateContent : Request -> P -> outcome Response * P.
Variable responseText : Response -> option jsstring.
Variable trimTypeError : jsstring.

Lemma removeQuotes_lacks (text : jsstring) : lacks 34 (removeQuotes text) = true.
Proof.
  unfold removeQuotes, lacks.
  induction text as [|c text IH]; simpl; [reflexivity|].
  destruct (N.eqb c 34) eqn:Hc; simpl; [exact IH|]. now rewrite Hc.
Qed.

(** X11.  A suggestion that [getCopySuggestion] resolves with is the text
    of a response of the provider, trimmed and then stripped of every
    double quote; it contains no double quote. *)
Theorem getCopySuggestion_has_no_quote
    (copyType : CopyField) (currentCopy suggestion : jsstring) (w : P) :
  fst (getCopySuggestion E generateContent responseText trimTypeError
         copyType currentCopy w) = Resolved suggestion ->
  lacks 34 suggestion = true
  /\ exists request w' response text,
       fst (generateContent request w') = Returned response
       /\ responseText response = Some text
       /\ suggestion = removeQuotes (trim text).
Proof.
  unfold getCopySuggestion. intros H.
  apply withRetries_resolved_returned in H as [w' Hcall].
  unfold suggestionCall in Hcall.
  match type of Hcall with
  | context [generateContent ?r w'] =>
      destruct (generateContent r w') as [[response|e] w''] eqn:Hgc; [|discriminate];
      destruct (responseText response) as [text|] eqn:Htext; [|discriminate];
      simpl in Hcall; injection Hcall as <-;
      split; [apply removeQuotes_lacks|];
      exists r, w', response, text; rewrite Hgc; auto
  end.
Qed.

End Suggestions.

Section Lifestyle.

Variable E : Engine.
Variable P : Type.
Variable generateContent : Request -> P -> outcome Response * P.
Variable referencePromptText : jsstring -> jsstring.
Variable scenePromptText : jsstring -> jsstring.

Lemma lifestyleCall_counted (request : Request) (w : P) (n : nat) :
  lifestyleCall (fun r => counted (generateContent r)) request (w, n)
  = counted (lifestyleCall generateContent request) (w, n).
Proof.
  unfold lifestyleCall, counted. simpl.
  destruct (generateContent request w) as [[response|e] w']; simpl; [|reflexivity].
  now destruct (firstInlineData response).
Qed.

Lemma lifestyleCall_no_image (request : Request) :
  neverAnImage generateContent ->
  forall j w,
    attempt (lifestyleCall generateContent request) j w
    = Threw (JsError (cu "No image was generated in the lifestyle creation step.")).
Proof.
  intros Hnever j w. unfold attempt, lifestyleCall.
  destruct (Hnever request (worldAfter (lifestyleCall generateContent request) j w))
    as (response & Hresp & Hnone).
  destruct (generateContent request _) as [o w']. simpl in Hresp. subst o.
  now rewrite Hnone.
Qed.

(** X12.  With or without a reference image, and whatever the aspect
    ratio, when the provider answers every call but never with an image
    part, [generateLifestyleImage] calls it exactly three times and then
    fails with the transport message that carries the text No image was
    generated in the lifestyle creation step. *)
Theorem generateLifestyleImage_without_image_part
    (productImage : ImageData) (prompt aspectRatio : jsstring)
    (referenceImage : option ImageData) (w : P) :
  neverAnImage generateContent ->
  fst (generateLifestyleImage E generateContent referencePromptText scenePromptText
         productImage prompt aspectRatio referenceImage w)
  = Failed (transportMessage
              (cu "No image was generated in the lifestyle creation step."))
  /\ snd (snd (generateLifestyleImage E (fun r => counted (generateContent r))
                 referencePromptText scenePromptText productImage prompt aspectRatio
                 referenceImage (w, 0)))
     = 3.
Proof.
  intros Hnever. unfold generateLifestyleImage.
  set (request := lifestyleRequest referencePromptText scenePromptText productImage
                    prompt referenceImage).
  set (missing := cu "No image was generated in the lifestyle creation step.").
  pose proof (lifestyleCall_no_image request Hnever) as Hthrows.
  split.
  - rewrite (withRetries_everyAttemptThrows E _ (e := JsError missing))
      by (intros j _; apply Hthrows).
    now rewrite handleGeminiError_no_brace.
  - unfold withRetries.
    rewrite (retryLoop_ext E _ _
               (counted (lifestyleCall generateContent request))
               (fun wn => lifestyleCall_counted request (fst wn) (snd wn))).
    rewrite (@retryLoop_exhausted E _ _ (lifestyleCall generateContent request) _
               MAX_RETRIES 0 w 0 (JsError missing)); trivial.
    + unfold MAX_RETRIES. lia.
    + intros j _. eexists. apply Hthrows.
Qed.

End Lifestyle.

(** ** Further facts: what every run of the page keeps *)




Section RunFacts.

Variable E : Engine.
Variable P : Type.
Variable generateContent : Request -> P -> outcome Response * P.
Variable editPromptText : jsstring -> jsstring.
Variable adPromptText : AdCopy -> jsstring -> jsstring -> jsstring.

Local Abbreviation stepPage := (step E generateContent editPromptText adPromptText).
Local Abbreviation runPage := (run E generateContent editPromptText adPromptText).











End RunFacts.

(** ** Further facts: the edit session and the batch handler *)

Section SessionMore.

Variable E : Engine.
Variable P : Type.
Variable generateContent : Request -> P -> outcome Response * P.
Variable editPromptText : jsstring -> jsstring.
Variable adPromptText : AdCopy -> jsstring -> jsstring -> jsstring.

Local Abbreviation applyEdit := (handleApplyEdit E generateContent editPromptText).
Local Abbreviation editCall := (editAd E generateContent editPromptText).

(** X16.  Reverting twice is reverting once, and a revert leaves a
    history of one entry, the original, in the session and in the slot. *)
Theorem revert_is_idempotent (st : State) :
  handleRevertToOriginal (handleRevertToOriginal st) = handleRevertToOriginal st
  /\ forall session,
       editingAd st = Some session ->
       1 < List.length (history session) ->
       sessionHistory (handleRevertToOriginal st) = Some [originalData session]
       /\ sharedSlot (handleRevertToOriginal st) = originalData session.
Proof.
  split.
  - unfold handleRevertToOriginal.
    destruct (editingAd st) as [session|] eqn:Hs; [|now rewrite Hs].
    destruct (List.length (history session) <=? 1) eqn:Hlen.
    + now rewrite Hs, Hlen.
    + simpl. rewrite Hs. reflexivity.
  - intros session Hs Hlen. unfold handleRevertToOriginal. rewrite Hs.
    replace (List.length (history session) <=? 1) with false
      by (symmetry; apply Nat.leb_gt; exact Hlen).
    unfold sessionHistory, sharedSlot. simpl. rewrite Hs. simpl.
    split; [reflexivity|apply arrayGet_arraySet_eq].
Qed.

Lemma lastOf_nonempty (h : list slot) (v : jsstring) :
  lastOf h = Some v -> h <> [].
Proof. intros H ->. discriminate. Qed.

Lemma length_snoc_gt (h : list slot) (x : slot) :
  h <> [] -> (List.length (h ++ [x]) <=? 1) = false.
Proof.
  intros Hne. apply Nat.leb_gt. rewrite length_app. simpl.
  destruct h; [congruence|simpl; lia].
Qed.

Lemma arraySet_arraySet (a : list slot) (i : nat) (v v' : slot) :
  arraySet (arraySet a i v) i v' = arraySet a i v'.
Proof.
  revert a; induction i as [|i IH]; intros [|x a]; simpl; try reflexivity;
    now rewrite IH.
Qed.

Lemma arraySet_same (a : list slot) (i : nat) (v : jsstring) :
  arrayGet a i = Some v -> arraySet a i (Some v) = a.
Proof.
  revert a; induction i as [|i IH]; intros [|x a]; simpl.
  - rewrite arrayGet_nil. discriminate.
  - unfold arrayGet. simpl. now intros ->.
  - rewrite arrayGet_nil. discriminate.
  - rewrite arrayGet_cons. intros H. now rewrite IH.
Qed.

(** X17.  Undo takes back a successful apply.  On a session whose live
    value [base] is the one in the slot, an apply that succeeds followed by
    an undo leaves the session (index, original and history) and the
    whole result array as they were before the apply. *)
Theorem undo_takes_back_apply
    (st : State) (session : EditSession) (base newAd : jsstring) (w : P) :
  editingAd st = Some session ->
  nonEmpty (trim (editPrompt st)) = true ->
  lastOf (history session) = Some base ->
  arrayGet (generatedAds st) (index session) = Some base ->
  fst (editCall base (editPrompt st) w) = Resolved newAd ->
  let after := handleUndoEdit (applyEdit w st) in
  editingAd after = Some session
  /\ generatedAds after = generatedAds st.
Proof.
  intros Hs Hprompt Hlast Hslot Hcall. cbv zeta.
  rewrite (@handleApplyEdit_success E P generateContent editPromptText st session base newAd w Hs Hprompt Hlast Hcall).
  pose proof (@length_snoc_gt (history session) (Some newAd)
                (@lastOf_nonempty (history session) base Hlast)) as Hlen.
  unfold handleUndoEdit. simpl.
  match goal with
  | |- context [?n <=? 1] => replace (n <=? 1) with false by (symmetry; exact Hlen)
  end.
  simpl. rewrite removelast_last. split.
  - now destruct session.
  - rewrite arraySet_arraySet, Hlast. now apply arraySet_same.
Qed.

(** X18.  Closing a session does not take an edit back.  After an apply
    that succeeded and Back to Results, the result array still holds the
    edited image, no session is open and the prompt and the error are
    cleared; a session opened again on that slot has the edited image as
    its original. *)
Theorem cancel_keeps_the_edit
    (st : State) (session : EditSession) (base newAd : jsstring) (w : P) :
  editingAd st = Some session ->
  nonEmpty (trim (editPrompt st)) = true ->
  lastOf (history session) = Some base ->
  fst (editCall base (editPrompt st) w) = Resolved newAd ->
  let closed := handleCancelEdit (applyEdit w st) in
  editingAd closed = None
  /\ editPrompt closed = [] /\ error closed = None
  /\ arrayGet (generatedAds closed) (index session) = Some newAd
  /\ editingAd (handleSelectAdForEdit (index session) closed)
     = Some {| index := index session; originalData := Some newAd;
               history := [Some newAd] |}.
Proof.
  intros Hs Hprompt Hlast Hcall. cbv zeta.
  rewrite (@handleApplyEdit_success E P generateContent editPromptText st session base newAd w Hs Hprompt Hlast Hcall).
  unfold handleCancelEdit, handleSelectAdForEdit. simpl.
  rewrite !arrayGet_arraySet_eq. repeat split; reflexivity.
Qed.

(** X19.  A batch that passes the guard of [handleSubmit] empties the
    result array and the error and awaits [generateAds] with the form's
    images, with the copy (the empty copy when copy is skipped) and the
    ratio.  When the call settles, the batch flag and the loading message
    are cleared in both outcomes; on success the array is the results in
    order, on failure the array stays as it was then and the error is the
    failure.  So after a failed batch with nothing in between no earlier
    result is left. *)
Theorem batch_outcomes
    (st : State) (image style logo : ImageData) :
  isFormValid st = true ->
  imageForAd st = Some image -> styleImage st = Some style ->
  logoImage st = Some logo -> regeneratingIndex st = None ->
  exists started,
    handleSubmit_start st
    = (started,
       Some (AwaitGenerateAds image style logo
               (if skipAdCopy st then emptyCopy else adCopy st) (aspectRatio st)))
    /\ generatedAds started = [] /\ error started = None
    /\ isGeneratingAds started = true
    /\ (forall cur r,
          let final := handleSubmit_resume r cur in
          isGeneratingAds final = false /\ loadingMessage final = []
          /\ match r with
             | Resolved ads =>
                 generatedAds final = map Some ads /\ error final = error cur
             | Failed message =>
                 generatedAds final = generatedAds cur
                 /\ error final = Some message
             end)
    /\ forall message,
         generatedAds (handleSubmit_resume (Failed message) started) = [].
Proof.
  intros Hvalid Himage Hstyle Hlogo Hidx.
  eexists. split.
  - unfold handleSubmit_start. rewrite Hvalid, Himage, Hstyle, Hlogo, Hidx.
    reflexivity.
  - simpl. split; [reflexivity|]. split; [reflexivity|]. split; [reflexivity|].
    split; [|reflexivity].
    intros cur r. cbv zeta. destruct r; simpl; repeat split; reflexivity.
Qed.

(** X20.  Whenever the Generate button is enabled, [handleSubmit] starts a
    batch: a click on the button never takes the branch that sets the
    message Please fill out all required fields.  A call of the handler
    that does take it sets that message and changes nothing else. *)
Theorem enabled_generate_starts_a_batch (st : State) :
  (enabled (@ClickGenerate P) st = true ->
   exists started op, handleSubmit_start st = (started, Some op)
                      /\ isBatchOp op = true)
  /\ (forall st', handleSubmit_start st = (st', None) ->
        st' = setError
                (Some (cu "Please fill out all required fields and upload all required images."))
                st).
Proof.
  split.
  - simpl. intros Hen.
    apply negb_true_iff, orb_false_iff in Hen as [Hen Hidx].
    apply orb_false_iff in Hen as [Hvalid _].
    apply negb_false_iff in Hvalid.
    unfold handleSubmit_start. rewrite Hvalid.
    unfold isFormValid in Hvalid.
    destruct (imageForAd st), (styleImage st), (logoImage st),
      (regeneratingIndex st); try discriminate.
    eexists. eexists. split; reflexivity.
  - intros st'. unfold handleSubmit_start.
    destruct (isFormValid st), (imageForAd st), (styleImage st), (logoImage st),
      (regeneratingIndex st); intros H; injection H as <-; try discriminate;
      reflexivity.
Qed.

(** X21.  Two ways in which a regeneration ends at once.  With an index
    that names no creative direction, the handler sets the error Invalid
    creative direction index with the index, starts no call and leaves no
    regeneration marked.  With an image of the form removed, it returns
    at its guard: nothing changes and no error is set, although the
    Regenerate button does not look at the images. *)
Theorem regeneration_ends_at_once (st : State) (target : nat) :
  (forall image style logo,
     List.length styleVariations <= target ->
     isGeneratingAds st = false -> regeneratingIndex st = None ->
     imageForAd st = Some image -> styleImage st = Some style ->
     logoImage st = Some logo ->
     exists st',
       handleRegenerateAd_start target st = (st', None)
       /\ error st' = Some (cu "Invalid creative direction index: " ++ ofNat target)
       /\ regeneratingIndex st' = None
       /\ generatedAds st' = generatedAds st)
  /\ (imageForAd st = None \/ styleImage st = None \/ logoImage st = None ->
      handleRegenerateAd_start target st = (st, None)).
Proof.
  split.
  - intros image style logo Hrange Hgen Hidx Himage Hstyle Hlogo.
    unfold handleRegenerateAd_start.
    rewrite Hgen, Hidx, Himage, Hstyle, Hlogo.
    replace (nth_error styleVariations target) with (@None jsstring)
      by (symmetry; apply nth_error_None; exact Hrange).
    eexists. repeat split; reflexivity.
  - intros H. unfold handleRegenerateAd_start.
    destruct (isGeneratingAds st), (regeneratingIndex st); try reflexivity.
    destruct H as [-> | [-> | ->]]; try reflexivity;
      destruct (imageForAd st); try reflexivity;
      destruct (styleImage st); reflexivity.
Qed.

End SessionMore.

(** ** Further facts: copy suggestions, the lifestyle image, the uploads *)

Section StudioFacts.

Import Studio.

Lemma eqb_refl (a : jsstring) : eqb a a = true.
Proof. now apply eqb_eq. Qed.

Lemma copyGet_copySet_eq (copy : AdCopy) (field : CopyField) (v : jsstring) :
  copyGet (copySet copy field v) field = v.
Proof. now destruct field. Qed.

Lemma copyGet_copySet_ne (copy : AdCopy) (field other : CopyField) (v : jsstring) :
  other <> field -> copyGet (copySet copy field v) other = copyGet copy other.
Proof. destruct field, other; intros H; try reflexivity; congruence. Qed.

Lemma suggestingGet_suggestingSet_eq (flags : Suggesting) (field : CopyField) (v : bool) :
  suggestingGet (suggestingSet flags field v) field = v.
Proof. now destruct field. Qed.

Lemma suggestingGet_suggestingSet_ne
    (flags : Suggesting) (field other : CopyField) (v : bool) :
  other <> field ->
  suggestingGet (suggestingSet flags field v) other = suggestingGet flags other.
Proof. destruct field, other; intros H; try reflexivity; congruence. Qed.

Lemma handleCopySuggestion_start_cases (field : CopyField) (pg : Page) :
  handleCopySuggestion_start field pg
  = if suggestEnabled field pg
    then (withCore (setError None)
            (setIsSuggestingCopy (suggestingSet (isSuggestingCopy pg) field true) pg),
          Some (field, copyGet (adCopy (core pg)) field))
    else (pg, None).
Proof.
  unfold handleCopySuggestion_start, suggestEnabled.
  now destruct (negb (nonEmpty (copyGet (adCopy (core pg)) field))
                || suggestingGet (isSuggestingCopy pg) field).
Qed.

(** X22.  One suggestion per field at a time.  [handleCopySuggestion]
    starts a call exactly when the Suggest button of the field is enabled
    (text in the field, no suggestion for it in flight), and then with the
    text of the field.  Once started, a second call for the same field
    does nothing until the first settles, while the buttons of the other
    two fields are as they were. *)
Theorem suggestion_one_per_field (field : CopyField) (pg : Page) :
  (suggestEnabled field pg = false -> handleCopySuggestion_start field pg = (pg, None))
  /\ (suggestEnabled field pg = true ->
      exists started,
        handleCopySuggestion_start field pg
        = (started, Some (field, copyGet (adCopy (core pg)) field))
        /\ handleCopySuggestion_start field started = (started, None)
        /\ adCopy (core started) = adCopy (core pg)
        /\ forall other,
             other <> field ->
             suggestEnabled other started = suggestEnabled other pg).
Proof.
  rewrite handleCopySuggestion_start_cases. split; intros Hen; rewrite Hen.
  - reflexivity.
  - eexists. split; [reflexivity|].
    rewrite handleCopySuggestion_start_cases. split; [|split].
    + unfold suggestEnabled. simpl. rewrite suggestingGet_suggestingSet_eq.
      now rewrite orb_true_r.
    + reflexivity.
    + intros other Hne. unfold suggestEnabled. simpl.
      now rewrite suggestingGet_suggestingSet_ne.
Qed.

(** X23.  A suggestion that arrives replaces whatever the field holds at
    that moment.  After a started suggestion for [field], text typed into
    a field [typedField] before the call settles is kept when the field is
    another one and lost when it is the same; on success the field holds
    the suggestion, on failure the copy is as typed and the error is the
    failure.  Either way the flag of the field is cleared and the third
    field and the other flags are untouched. *)
Theorem suggestion_replaces_field
    (field typedField : CopyField) (typed : jsstring)
    (pg started : Page) (op : CopyField * jsstring) (r : result jsstring) :
  handleCopySuggestion_start field pg = (started, Some op) ->
  let final := handleCopySuggestion_resume field r
                 (handleCopyChange typedField typed started) in
  match r with
  | Resolved suggestion =>
      copyGet (adCopy (core final)) field = suggestion
      /\ (typedField <> field -> copyGet (adCopy (core final)) typedField = typed)
      /\ error (core final) = None
  | Failed message =>
      copyGet (adCopy (core final)) typedField = typed
      /\ (typedField <> field ->
          copyGet (adCopy (core final)) field = copyGet (adCopy (core pg)) field)
      /\ error (core final) = Some message
  end
  /\ suggestingGet (isSuggestingCopy final) field = false
  /\ forall other,
       other <> field ->
       suggestingGet (isSuggestingCopy final) other
       = suggestingGet (isSuggestingCopy pg) other
       /\ (other <> typedField ->
           copyGet (adCopy (core final)) other = copyGet (adCopy (core pg)) other).
Proof.
  rewrite handleCopySuggestion_start_cases.
  destruct (suggestEnabled field pg); [|discriminate].
  intros H; injection H as <- _. cbv zeta.
  split; [|split].
  - destruct r as [suggestion|message]; simpl; (split; [|split]).
    + apply copyGet_copySet_eq.
    + intros Hne. rewrite copyGet_copySet_ne by exact Hne.
      apply copyGet_copySet_eq.
    + reflexivity.
    + apply copyGet_copySet_eq.
    + intros Hne. apply copyGet_copySet_ne. congruence.
    + reflexivity.
  - destruct r; simpl; apply suggestingGet_suggestingSet_eq.
  - intros other Hne. split.
    + destruct r; simpl; now rewrite !suggestingGet_suggestingSet_ne.
    + intros Hne'. destruct r; simpl; now rewrite !copyGet_copySet_ne.
Qed.

(** X24.  Generating a lifestyle image.  With a product image and a prompt
    that is not blank, the handler awaits [generateLifestyleImage] with
    the ratio 1:1 and discards the lifestyle image shown.  On success the
    new image is shown and chosen for the ads.  On failure no lifestyle
    image is shown, the error is the failure, and the image chosen for the
    ads is still the one chosen before, even when that was the lifestyle
    image just discarded. *)
Theorem lifestyle_generation_outcomes
    (pg : Page) (product : ImageData) (chosen : option ImageData) :
  productImage pg = Some product ->
  nonEmpty (trim (lifestylePrompt pg)) = true ->
  imageForAd (core pg) = chosen ->
  exists started,
    handleGenerateLifestyle_start pg
    = (started,
       Some (AwaitLifestyle product (lifestylePrompt pg) (cu "1:1")
               (lifestyleReferenceImage pg)))
    /\ isGeneratingLifestyle started = true
    /\ generatedLifestyleImage started = None
    /\ (forall image,
          let final := handleGenerateLifestyle_resume (Resolved image) started in
          generatedLifestyleImage final = Some image
          /\ imageForAd (core final) = Some image
          /\ isLifestyleImageInUse final = true
          /\ isGeneratingLifestyle final = false)
    /\ (forall message,
          let final := handleGenerateLifestyle_resume (Failed message) started in
          generatedLifestyleImage final = None
          /\ imageForAd (core final) = chosen
          /\ isLifestyleImageInUse final = false
          /\ error (core final) = Some message
          /\ isGeneratingLifestyle final = false).
Proof.
  intros Hproduct Hprompt Hchosen. unfold handleGenerateLifestyle_start.
  rewrite Hproduct, Hprompt. eexists. split; [reflexivity|].
  split; [reflexivity|]. split; [reflexivity|]. split.
  - intros image. cbv zeta. unfold isLifestyleImageInUse. simpl.
    rewrite eqb_refl. repeat split; reflexivity.
  - intros message. cbv zeta. unfold isLifestyleImageInUse. simpl.
    repeat split; try reflexivity. exact Hchosen.
Qed.

(** X25.  The guard of the lifestyle handler.  Without a product image, or
    with a prompt that is empty or white space only, the handler starts
    nothing: it sets the error Please provide a product image and a prompt
    for the lifestyle image, and leaves the lifestyle image, the image
    chosen for the ads and the busy flag as they are. *)
Theorem lifestyle_guard (pg : Page) :
  productImage pg = None \/ nonEmpty (trim (lifestylePrompt pg)) = false ->
  exists refused,
    handleGenerateLifestyle_start pg = (refused, None)
    /\ error (core refused) = Some lifestyleGuardMessage
    /\ generatedLifestyleImage refused = generatedLifestyleImage pg
    /\ imageForAd (core refused) = imageForAd (core pg)
    /\ isGeneratingLifestyle refused = isGeneratingLifestyle pg.
Proof.
  intros H. unfold handleGenerateLifestyle_start.
  destruct (productImage pg) as [product|].
  - destruct H as [H|H]; [discriminate|]. rewrite H.
    eexists. repeat split; reflexivity.
  - eexists. repeat split; reflexivity.
Qed.

(** X26.  Changing the product image.  A new upload becomes the image
    chosen for the ads, also when a lifestyle image was chosen, and the
    lifestyle image stays on show but is no longer marked as in use unless
    it has the same data.  Removing the product image clears the image
    chosen for the ads and the lifestyle image, so the form is not valid,
    [handleSubmit] refuses and the lifestyle handler refuses. *)
Theorem product_image_change (pg : Page) :
  (forall image,
     let after := onProductImageChange (Some image) pg in
     productImage after = Some image
     /\ imageForAd (core after) = Some image
     /\ isOriginalImageInUse after = true
     /\ generatedLifestyleImage after = generatedLifestyleImage pg
     /\ forall shown,
          generatedLifestyleImage pg = Some shown ->
          data shown <> data image ->
          isLifestyleImageInUse after = false)
  /\ (forall previous,
        productImage pg = Some previous ->
        let after := onProductImageChange None pg in
        productImage after = None
        /\ imageForAd (core after) = None
        /\ generatedLifestyleImage after = None
        /\ isFormValid (core after) = false
        /\ snd (handleSubmit_start (core after)) = None
        /\ snd (handleGenerateLifestyle_start after) = None).
Proof.
  split.
  - intros image. cbv zeta. unfold onProductImageChange, isOriginalImageInUse,
      isLifestyleImageInUse. simpl. rewrite eqb_refl.
    repeat split; try reflexivity.
    intros shown Hshown Hdata. rewrite Hshown. simpl.
    destruct (eqb (data image) (data shown)) eqn:Heq; [|reflexivity].
    apply eqb_eq in Heq. congruence.
  - intros previous Hprevious. cbv zeta. unfold onProductImageChange.
    rewrite Hprevious. unfold handleSubmit_start, isFormValid. simpl.
    repeat split; reflexivity.
Qed.

(** X27.  Choosing between the product image and the lifestyle image.
    With both present and different in their data, Use this for Ads marks
    the lifestyle image as in use and the product image as not, Revert to
    Original does the opposite, and Revert after Use chooses the product
    image again.  When the two have the same data, both are marked in use
    whichever is chosen. *)
Theorem image_choice_toggles (pg : Page) (product shown : ImageData) :
  productImage pg = Some product ->
  generatedLifestyleImage pg = Some shown ->
  let used := useLifestyleImage pg in
  let reverted := revertToOriginalImage used in
  imageForAd (core used) = Some shown
  /\ imageForAd (core reverted) = Some product
  /\ isLifestyleImageInUse used = true
  /\ isOriginalImageInUse reverted = true
  /\ (data shown <> data product ->
      isOriginalImageInUse used = false /\ isLifestyleImageInUse reverted = false)
  /\ (data shown = data product ->
      isOriginalImageInUse used = true /\ isLifestyleImageInUse reverted = true).
Proof.
  intros Hproduct Hshown. cbv zeta.
  unfold useLifestyleImage, revertToOriginalImage, isLifestyleImageInUse,
    isOriginalImageInUse. simpl. rewrite Hproduct, Hshown. simpl.
  rewrite !eqb_refl. repeat split; try reflexivity.
  - destruct (eqb (data shown) (data product)) eqn:Heq; [|reflexivity].
    apply eqb_eq in Heq. congruence.
  - destruct (eqb (data product) (data shown)) eqn:Heq; [|reflexivity].
    apply eqb_eq in Heq. congruence.
  - now apply eqb_eq.
  - now apply eqb_eq.
Qed.

(** X28.  The style guide and the logo.  Removing either makes the form
    invalid, so the Generate button is disabled and [handleSubmit]
    refuses; replacing either by another upload keeps a valid form valid
    and does not touch the results, the copy or the image chosen for the
    ads. *)
Theorem style_or_logo_change (pg : Page) (v : option ImageData) :
  let styled := onStyleImageChange v pg in
  let logoed := onLogoImageChange v pg in
  (v = None ->
   isFormValid (core styled) = false /\ isFormValid (core logoed) = false
   /\ snd (handleSubmit_start (core styled)) = None
   /\ snd (handleSubmit_start (core logoed)) = None)
  /\ (v <> None -> isFormValid (core pg) = true ->
      isFormValid (core styled) = true /\ isFormValid (core logoed) = true)
  /\ generatedAds (core styled) = generatedAds (core pg)
  /\ generatedAds (core logoed) = generatedAds (core pg)
  /\ imageForAd (core styled) = imageForAd (core pg)
  /\ imageForAd (core logoed) = imageForAd (core pg)
  /\ adCopy (core styled) = adCopy (core pg)
  /\ adCopy (core logoed) = adCopy (core pg).
Proof.
  cbv zeta. split; [|split; [|repeat split; reflexivity]].
  - intros ->. unfold handleSubmit_start, isFormValid. simpl.
    destruct (imageForAd (core pg)), (styleImage (core pg)), (logoImage (core pg));
      simpl; repeat split; reflexivity.
  - intros Hv. destruct v as [image|]; [|congruence].
    unfold isFormValid. simpl. intros Hvalid.
    destruct (imageForAd (core pg)), (styleImage (core pg)), (logoImage (core pg));
      try discriminate; simpl in *; split; exact Hvalid.
Qed.

End StudioFacts.

(** ** Further facts: the cards of the results *)

Lemma cu_injective (a b : string) : cu a = cu b -> a = b.
Proof.
  unfold cu. intros H.
  rewrite <- (string_of_list_ascii_of_string a), <- (string_of_list_ascii_of_string b).
  f_equal. revert H.
  generalize (list_ascii_of_string a) (list_ascii_of_string b).
  intros x; induction x as [|c x IH]; intros [|d y]; simpl; try congruence.
  intros H. injection H as Hc Hx. f_equal; [|now apply IH].
  rewrite <- (ascii_N_embedding c), <- (ascii_N_embedding d). now rewrite Hc.
Qed.

Lemma ofNat_injective (n m : nat) : ofNat n = ofNat m -> n = m.
Proof.
  unfold ofNat. intros H. apply cu_injective in H.
  assert (Hu : Nat.to_uint n = Nat.to_uint m).
  { apply (f_equal NilEmpty.uint_of_string) in H.
    rewrite !NilEmpty.usu in H. congruence. }
  rewrite <- (Unsigned.of_to n), <- (Unsigned.of_to m). now rewrite Hu.
Qed.

Lemma digits_lack_hyphen (d : Decimal.uint) :
  lacks 45 (cu (NilEmpty.string_of_uint d)) = true.
Proof. induction d; simpl; try reflexivity; exact IHd. Qed.

Lemma ofNat_lacks_hyphen (n : nat) : lacks 45 (ofNat n) = true.
Proof. apply digits_lack_hyphen. Qed.

Lemma split_at_first (c : N) (a b s t : jsstring) :
  lacks c a = true -> lacks c b = true ->
  a ++ c :: s = b ++ c :: t -> a = b /\ s = t.
Proof.
  revert b; induction a as [|x a IH]; intros [|y b] Ha Hb H; simpl in *.
  - injection H as ->. now split.
  - injection H as <- _. apply andb_true_iff in Hb as [Hb _].
    now rewrite N.eqb_refl in Hb.
  - injection H as -> _. apply andb_true_iff in Ha as [Ha _].
    now rewrite N.eqb_refl in Ha.
  - injection H as -> H.
    apply andb_true_iff in Ha as [_ Ha]. apply andb_true_iff in Hb as [_ Hb].
    destruct (IH b Ha Hb H) as [-> ->]. now split.
Qed.

(** X29.  The cards of the results never share a key or a file name.  The
    React key of a card determines its index (and the last ten code units
    of its image), and the download name determines the index; so two
    cards at different indices differ in both, whatever their images. *)
Theorem card_names_are_distinct (i j : nat) (a b : jsstring) :
  (cardKey i a = cardKey j b <-> i = j /\ lastTen a = lastTen b)
  /\ (downloadName i = downloadName j <-> i = j).
Proof.
  split; split.
  - unfold cardKey. intros H.
    apply split_at_first in H as [Hi Ht]; try apply ofNat_lacks_hyphen.
    split; [now apply ofNat_injective|exact Ht].
  - intros [-> Ht]. unfold cardKey. now rewrite Ht.
  - unfold downloadName. intros H.
    apply app_inv_head in H. apply app_inv_tail in H.
    apply ofNat_injective in H. lia.
  - now intros ->.
Qed.

(** ** The further statements on sample inputs *)

(** A transport error: the text has no brace. *)
Lemma handleGeminiError_plain_text_sample :
  handleGeminiError plainEngine (JsError (cu "Failed to fetch")) (cu "ad generation")
  = cu "We have encountered problems in generating your assets: Failed to fetch"
  /\ handleGeminiError plainEngine NotAnError (cu "ad generation") = defaultMessage.
Proof.
  apply (@handleGeminiError_plain_text plainEngine (cu "ad generation")
           (cu "Failed to fetch")).
  left. reflexivity.
Defined.

(** The provider reports that it is overloaded. *)
Lemma handleGeminiError_provider_message_sample :
  handleGeminiError plainEngine (JsError (cu "ApiError: " ++ overloadedPayload))
    (cu "ad generation")
  = providerMessage (cu "UNAVAILABLE") (cu "The model is overloaded").
Proof.
  refine (proj1 (@handleGeminiError_provider_message plainEngine (cu "ad generation")
                   (cu "ApiError: " ++ overloadedPayload) overloadedPayload
                   (JObject
                      [(cu "error",
                        JObject [(cu "code", JNumber (cu "503"));
                                 (cu "status", JString (cu "UNAVAILABLE"));
                                 (cu "message", JString (cu "The model is overloaded"))])])
                   (Val (JObject
                           [(cu "code", JNumber (cu "503"));
                            (cu "status", JString (cu "UNAVAILABLE"));
                            (cu "message", JString (cu "The model is overloaded"))]))
                   (Val (JString (cu "UNAVAILABLE")))
                   (cu "The model is overloaded") _ _ _ _ _ _ _)
            (cu "UNAVAILABLE") eq_refl _ _).
  - vm_compute. reflexivity.
  - vm_compute. reflexivity.
  - vm_compute. reflexivity.
  - vm_compute. reflexivity.
  - discriminate.
  - vm_compute. reflexivity.
  - vm_compute. reflexivity.
  - discriminate.
  - discriminate.
Defined.

(** Braces around text that is not JSON. *)
Lemma handleGeminiError_fallback_sample :
  handleGeminiError plainEngine (JsError (cu "Unexpected token {oops}"))
    (cu "ad generation")
  = defaultMessage.
Proof.
  apply (@handleGeminiError_fallback plainEngine (cu "ad generation")
           (cu "Unexpected token {oops}") (cu "{oops}")).
  - vm_compute. reflexivity.
  - left. vm_compute. reflexivity.
Defined.

(** Three failures in a row end in the classified message of the last. *)
Lemma withRetries_trailing_throw_unreachable_sample :
  startsWith apology (transportMessage (cu "fetch failed")) = true.
Proof.
  apply (proj2 (@withRetries_trailing_throw_unreachable plainEngine _ nat
                  (@replay nat) (cu "sample") [])).
  vm_compute. reflexivity.
Defined.

Lemma generateSingleAd_without_image_part_sample :
  fst (generateSingleAd plainEngine textOnly noAdPromptText sampleImage sampleImage
         sampleImage emptyCopy (cu "Clean and Modern") (cu "1:1") tt)
  = Failed (transportMessage (cu "Model response did not contain a valid image part."))
  /\ snd (snd (generateSingleAd plainEngine (fun r => counted (textOnly r))
                 noAdPromptText sampleImage sampleImage sampleImage emptyCopy
                 (cu "Clean and Modern") (cu "1:1") (tt, 0)))
     = 3.
Proof.
  apply (@generateSingleAd_without_image_part plainEngine unit textOnly noAdPromptText
           sampleImage sampleImage sampleImage emptyCopy (cu "Clean and Modern")
           (cu "1:1") tt).
  intros request w. eexists. split; reflexivity.
Defined.

Lemma matchDataUrl_of_dataUrl_sample :
  matchDataUrl adA = Some (cu "image/png", cu "AAAA").
Proof.
  apply (@matchDataUrl_of_dataUrl (cu "png") (cu "AAAA"));
    try discriminate; reflexivity.
Defined.

Lemma editAd_accepts_generated_ad_sample :
  editAd plainEngine scripted noPromptText adA (cu "brighter") (answering (cu "EEEE"))
  = withRetries plainEngine
      (imageCall scripted
         {| model := imageModel;
            contents := [ InlinePart sampleImage; TextPart (cu "brighter") ];
            responseModalities := [IMAGE] |}
         (cu "Model response did not contain a valid image part for the edit."))
      (cu "ad editing with prompt: " ++ 34%N :: cu "brighter" ++ [34%N])
      (answering (cu "EEEE")).
Proof.
  apply (@editAd_accepts_generated_ad plainEngine _ scripted noPromptText
           (cu "png") (cu "AAAA") (cu "brighter") (answering (cu "EEEE")));
    try discriminate; reflexivity.
Defined.

(** An image part without a MIME type. *)
Lemma editAd_rejects_ad_without_image_type_sample :
  editAd plainEngine scripted noPromptText
    (cu "data:undefined;base64,AAAA") (cu "brighter") (answering (cu "EEEE"))
  = (Failed (cu "Invalid base image data URL format."), answering (cu "EEEE")).
Proof.
  apply (@editAd_rejects_ad_without_image_type plainEngine _ scripted noPromptText
           {| blobData := Some (cu "AAAA"); blobMimeType := None |}
           (cu "brighter") (answering (cu "EEEE"))).
  reflexivity.
Defined.

Lemma fileToBase64_round_trip_sample :
  fileToBase64 (cu "image/png") (Loaded adA)
  = Some {| fileData := Some (cu "AAAA"); fileMimeType := cu "image/png" |}
  /\ imageHref sampleImage = adA.
Proof.
  destruct (@fileToBase64_round_trip (cu "image/png") (cu "AAAA") (cu "image/png"))
    as (Hread & Hhref & _).
  - reflexivity.
  - reflexivity.
  - split; [exact Hread|exact (Hhref eq_refl)].
Defined.

Lemma getCopySuggestion_has_no_quote_sample :
  fst (getCopySuggestion plainEngine scripted quotedText (cu "trim of undefined")
         Headline (cu "Banana") (answering (cu "AAAA")))
  = Resolved (cu "Fresh shakes, fast")
  /\ lacks 34 (cu "Fresh shakes, fast") = true.
Proof.
  split; [vm_compute; reflexivity|].
  refine (proj1 (@getCopySuggestion_has_no_quote plainEngine _ scripted quotedText
                   (cu "trim of undefined") Headline (cu "Banana")
                   (cu "Fresh shakes, fast") (answering (cu "AAAA")) _)).
  vm_compute. reflexivity.
Defined.

Lemma generateLifestyleImage_without_image_part_sample :
  fst (generateLifestyleImage plainEngine textOnly noPromptText noPromptText
         sampleImage (cu "on a beach") (cu "1:1") None tt)
  = Failed (transportMessage
              (cu "No image was generated in the lifestyle creation step."))
  /\ snd (snd (generateLifestyleImage plainEngine (fun r => counted (textOnly r))
                 noPromptText noPromptText sampleImage (cu "on a beach") (cu "1:1")
                 None (tt, 0)))
     = 3.
Proof.
  apply (@generateLifestyleImage_without_image_part plainEngine unit textOnly
           noPromptText noPromptText sampleImage (cu "on a beach") (cu "1:1") None tt).
  intros request w. eexists. split; reflexivity.
Defined.




(** Revert after one edit of slot 0. *)
Lemma revert_is_idempotent_sample :
  sessionHistory (handleRevertToOriginal editedPage) = Some [Some adA]
  /\ sharedSlot (handleRevertToOriginal editedPage) = Some adA.
Proof.
  apply (proj2 (@revert_is_idempotent editedPage)
           {| index := 0; originalData := Some adA; history := [Some adA; Some adE] |}).
  - vm_compute. reflexivity.
  - simpl. lia.
Defined.

Lemma undo_takes_back_apply_sample :
  let after := handleUndoEdit editedPage in
  editingAd after
  = Some {| index := 0; originalData := Some adA; history := [Some adA] |}
  /\ generatedAds after = [Some adA; Some adB; Some adC].
Proof.
  cbv zeta.
  apply (@undo_takes_back_apply plainEngine _ scripted noPromptText
           (editingPage (cu "brighter"))
           {| index := 0; originalData := Some adA; history := [Some adA] |}
           adA adE (answering (cu "EEEE"))).
  - reflexivity.
  - vm_compute. reflexivity.
  - reflexivity.
  - reflexivity.
  - vm_compute. reflexivity.
Defined.

Lemma cancel_keeps_the_edit_sample :
  let closed := handleCancelEdit editedPage in
  editingAd closed = None
  /\ editPrompt closed = [] /\ error closed = None
  /\ arrayGet (generatedAds closed) 0 = Some adE
  /\ editingAd (handleSelectAdForEdit 0 closed)
     = Some {| index := 0; originalData := Some adE; history := [Some adE] |}.
Proof.
  cbv zeta.
  apply (@cancel_keeps_the_edit plainEngine _ scripted noPromptText
           (editingPage (cu "brighter"))
           {| index := 0; originalData := Some adA; history := [Some adA] |}
           adA adE (answering (cu "EEEE"))).
  - reflexivity.
  - vm_compute. reflexivity.
  - reflexivity.
  - vm_compute. reflexivity.
Defined.

(** A batch on the sample page that fails leaves no result. *)
Lemma batch_outcomes_sample :
  generatedAds (handleSubmit_resume (Failed (transportMessage (cu "fetch failed")))
                  (fst (handleSubmit_start readyPage)))
  = [].
Proof.
  destruct (@batch_outcomes readyPage sampleImage sampleImage sampleImage)
    as (started & Hstart & _ & _ & _ & _ & Hfailed).
  - reflexivity.
  - reflexivity.
  - reflexivity.
  - reflexivity.
  - reflexivity.
  - rewrite Hstart. apply Hfailed.
Defined.

Lemma enabled_generate_starts_a_batch_sample :
  exists started op,
    handleSubmit_start readyPage = (started, Some op) /\ isBatchOp op = true.
Proof.
  apply (proj1 (@enabled_generate_starts_a_batch unit readyPage)).
  reflexivity.
Defined.

(** Slot 5 names no creative direction. *)
Lemma regeneration_ends_at_once_sample :
  exists st',
    handleRegenerateAd_start 5 readyPage = (st', None)
    /\ error st' = Some (cu "Invalid creative direction index: 5")
    /\ regeneratingIndex st' = None
    /\ generatedAds st' = generatedAds readyPage.
Proof.
  apply (proj1 (@regeneration_ends_at_once readyPage 5)
           sampleImage sampleImage sampleImage);
    try reflexivity.
  vm_compute. lia.
Defined.

(** A suggestion for the headline of the draft. *)
Lemma suggestion_one_per_field_sample :
  exists started,
    Studio.handleCopySuggestion_start Headline (studioPage (cu "on a beach"))
    = (started, Some (Headline, cu "Banana"))
    /\ Studio.handleCopySuggestion_start Headline started = (started, None)
    /\ adCopy (Studio.core started) = draftCopy
    /\ forall other,
         other <> Headline ->
         Studio.suggestEnabled other started
         = Studio.suggestEnabled other (studioPage (cu "on a beach")).
Proof.
  apply (proj2 (@suggestion_one_per_field Headline (studioPage (cu "on a beach")))).
  reflexivity.
Defined.

(** The description is typed while a suggestion for the headline is in
    flight; the suggestion arrives. *)
Lemma suggestion_replaces_field_sample :
  let started := fst (Studio.handleCopySuggestion_start Headline
                        (studioPage (cu "on a beach"))) in
  let final := Studio.handleCopySuggestion_resume Headline
                 (Resolved (cu "Go bananas"))
                 (Studio.handleCopyChange Description (cu "Cold and sweet") started) in
  copyGet (adCopy (Studio.core final)) Headline = cu "Go bananas"
  /\ copyGet (adCopy (Studio.core final)) Description = cu "Cold and sweet"
  /\ Studio.suggestingGet (Studio.isSuggestingCopy final) Headline = false.
Proof.
  cbv zeta.
  destruct (@suggestion_replaces_field Headline Description (cu "Cold and sweet")
              (studioPage (cu "on a beach"))
              (fst (Studio.handleCopySuggestion_start Headline
                      (studioPage (cu "on a beach"))))
              (Headline, cu "Banana") (Resolved (cu "Go bananas")))
    as ((Hfield & Htyped & _) & Hflag & _).
  - reflexivity.
  - split; [exact Hfield|]. split; [|exact Hflag].
    apply Htyped. discriminate.
Defined.

Lemma lifestyle_generation_outcomes_sample :
  let started := fst (Studio.handleGenerateLifestyle_start
                        (studioPage (cu "on a beach"))) in
  (let final := Studio.handleGenerateLifestyle_resume (Resolved lifestyleImage) started in
   imageForAd (Studio.core final) = Some lifestyleImage
   /\ Studio.isLifestyleImageInUse final = true)
  /\ (let final := Studio.handleGenerateLifestyle_resume
                     (Failed (transportMessage (cu "fetch failed"))) started in
      imageForAd (Studio.core final) = Some sampleImage
      /\ Studio.generatedLifestyleImage final = None).
Proof.
  cbv zeta.
  destruct (@lifestyle_generation_outcomes (studioPage (cu "on a beach"))
              sampleImage (Some sampleImage))
    as (started & Hstart & _ & _ & Hok & Hfail).
  - reflexivity.
  - vm_compute. reflexivity.
  - reflexivity.
  - rewrite Hstart. cbn [fst]. split.
    + destruct (Hok lifestyleImage) as (_ & Himage & Huse & _). now split.
    + destruct (Hfail (transportMessage (cu "fetch failed")))
        as (Hnone & Himage & _). now split.
Defined.

(** A prompt of blanks only. *)
Lemma lifestyle_guard_sample :
  exists refused,
    Studio.handleGenerateLifestyle_start (studioPage (cu "   ")) = (refused, None)
    /\ error (Studio.core refused) = Some Studio.lifestyleGuardMessage
    /\ Studio.generatedLifestyleImage refused = None
    /\ imageForAd (Studio.core refused) = Some sampleImage
    /\ Studio.isGeneratingLifestyle refused = false.
Proof.
  apply (@lifestyle_guard (studioPage (cu "   "))).
  right. vm_compute. reflexivity.
Defined.

(** The product image of the sample page is removed. *)
Lemma product_image_change_sample :
  let after := Studio.onProductImageChange None (studioPage (cu "on a beach")) in
  Studio.productImage after = None
  /\ imageForAd (Studio.core after) = None
  /\ Studio.generatedLifestyleImage after = None
  /\ isFormValid (Studio.core after) = false
  /\ snd (handleSubmit_start (Studio.core after)) = None
  /\ snd (Studio.handleGenerateLifestyle_start after) = None.
Proof.
  cbv zeta.
  apply (proj2 (@product_image_change (studioPage (cu "on a beach"))) sampleImage).
  reflexivity.
Defined.

(** The sample page with a lifestyle image on show. *)
Lemma image_choice_toggles_sample :
  let pg := Studio.setGeneratedLifestyleImage (Some lifestyleImage)
              (studioPage (cu "on a beach")) in
  let used := Studio.useLifestyleImage pg in
  imageForAd (Studio.core used) = Some lifestyleImage
  /\ Studio.isLifestyleImageInUse used = true
  /\ Studio.isOriginalImageInUse used = false
  /\ imageForAd (Studio.core (Studio.revertToOriginalImage used)) = Some sampleImage.
Proof.
  cbv zeta.
  destruct (@image_choice_toggles
              (Studio.setGeneratedLifestyleImage (Some lifestyleImage)
                 (studioPage (cu "on a beach")))
              sampleImage lifestyleImage)
    as (Hused & Hreverted & Hlifestyle & _ & Hdiffer & _).
  - reflexivity.
  - reflexivity.
  - split; [exact Hused|]. split; [exact Hlifestyle|]. split; [|exact Hreverted].
    apply Hdiffer. discriminate.
Defined.

(** The style guide of the sample page is removed. *)
Lemma style_or_logo_change_sample :
  isFormValid (Studio.core (Studio.onStyleImageChange None (studioPage (cu "on a beach"))))
  = false.
Proof.
  apply (proj1 (@style_or_logo_change (studioPage (cu "on a beach")) None)).
  reflexivity.
Defined.
